(** * A shallow embedding of the language server (src/server.ts)

    The server answers four editor requests (completion, completion
    resolve, signature help, hover) by sending a prompt to a remote
    text-generation service and parsing the reply.  This file embeds the
    handlers, the inference client and the two text-position helpers, and
    states the properties of the specification about them. *)

From Stdlib Require Import List ZArith NArith Lia Bool String Ascii SpecFloat.
Import ListNotations.

#[local] Set Warnings "-register-all".

Local Open Scope Z_scope.

(** ** The runtime: strings

    An ECMAScript string is a sequence of UTF-16 code units.  Literals of
    the source are written with [lit] from an ASCII string. *)

Module Js.

Definition code_unit := N.
Definition jsstring := list code_unit.

Definition lit (s : string) : jsstring :=
  map N_of_ascii (list_ascii_of_string s).

Definition len {A} (s : list A) : Z := Z.of_nat (List.length s).

(** [s[i]]: [None] stands for [undefined]. *)
Definition at_ {A} (s : list A) (i : Z) : option A :=
  if i <? 0 then None else nth_error s (Z.to_nat i).

Definition clamp (n : Z) (a : Z) : Z := Z.min (Z.max a 0) n.

(** [s.substring(a, b)]: both ends clamped to [0, length], swapped when
    out of order. *)
Definition substring (s : jsstring) (a b : Z) : jsstring :=
  let a' := clamp (len s) a in
  let b' := clamp (len s) b in
  let from := Z.min a' b' in
  let to := Z.max a' b' in
  firstn (Z.to_nat (to - from)) (skipn (Z.to_nat from) s).

(** [s.substring(a)] *)
Definition substring_from (s : jsstring) (a : Z) : jsstring :=
  substring s a (len s).

(** [s.lastIndexOf(c)] for a one-unit search string; [-1] when absent. *)
Fixpoint lastIndexOf_aux (c : code_unit) (s : jsstring) (i found : Z) : Z :=
  match s with
  | [] => found
  | x :: t => lastIndexOf_aux c t (i + 1) (if N.eqb x c then i else found)
  end.

Definition lastIndexOf (s : jsstring) (c : code_unit) : Z :=
  lastIndexOf_aux c s 0 (-1).

(** The string iterator behind [for (const char of s)]: it yields code
    points, a surrogate pair as one two-unit string. *)
Definition is_lead (c : code_unit) : bool := (N.leb 55296 c && N.leb c 56319)%N.
Definition is_trail (c : code_unit) : bool := (N.leb 56320 c && N.leb c 57343)%N.

Fixpoint string_iterator (s : jsstring) : list jsstring :=
  match s with
  | [] => []
  | c :: t =>
      match t with
      | d :: t' =>
          if is_lead c && is_trail d
          then [c; d] :: string_iterator t'
          else [c] :: string_iterator t
      | [] => [[c]]
      end
  end.

Definition str_eqb (a b : jsstring) : bool :=
  if list_eq_dec N.eq_dec a b then true else false.

(** WhiteSpace and LineTerminator code points, the ones [trim] strips. *)
Definition is_space (c : code_unit) : bool :=
  ((N.leb 9 c && N.leb c 13) || N.eqb c 32 || N.eqb c 160 || N.eqb c 5760
   || (N.leb 8192 c && N.leb c 8202) || N.eqb c 8232 || N.eqb c 8233
   || N.eqb c 8239 || N.eqb c 8287 || N.eqb c 12288 || N.eqb c 65279)%N.

Fixpoint trimStart (s : jsstring) : jsstring :=
  match s with
  | [] => []
  | c :: t => if is_space c then trimStart t else s
  end.

Definition trimEnd (s : jsstring) : jsstring := rev (trimStart (rev s)).

Definition trim (s : jsstring) : jsstring := trimEnd (trimStart s).

(** [s.split(sep)] for a one-unit separator: never the empty array. *)
Fixpoint split (s : jsstring) (sep : code_unit) : list jsstring :=
  match s with
  | [] => [[]]
  | c :: t =>
      if N.eqb c sep then [] :: split t sep
      else match split t sep with
           | h :: r => (c :: h) :: r
           | [] => [[c]]
           end
  end.

(** [a.join(sep)] *)
Fixpoint join (a : list jsstring) (sep : jsstring) : jsstring :=
  match a with
  | [] => []
  | [x] => x
  | x :: r => x ++ sep ++ join r sep
  end.

(** [a.slice(start, end)]: negative indices count from the end. *)
Definition rel_index (n i : Z) : Z :=
  if i <? 0 then Z.max (n + i) 0 else Z.min i n.

Definition slice {A} (a : list A) (s e : Z) : list A :=
  let k := rel_index (len a) s in
  let final := rel_index (len a) e in
  firstn (Z.to_nat (final - k)) (skipn (Z.to_nat k) a).

(** Character classes of the regular expressions (no [u] or [i] flag). *)
Definition is_digit (c : code_unit) : bool := (N.leb 48 c && N.leb c 57)%N.

Definition is_word (c : code_unit) : bool :=
  ((N.leb 97 c && N.leb c 122) || (N.leb 65 c && N.leb c 90)
   || is_digit c || N.eqb c 95)%N.

Definition LPAREN : code_unit := 40%N.
Definition RPAREN : code_unit := 41%N.
Definition COMMA : code_unit := 44%N.
Definition DOT : code_unit := 46%N.
Definition UNDERSCORE : code_unit := 95%N.
Definition LF : code_unit := 10%N.
Definition QUOTE : code_unit := 34%N.

End Js.

Import Js.

(** ** Text-position helpers *)

(** The body of the [for ... of] loop of [getCurrentParameterIndex]; the
    state is [(paramCount, nestedLevel)]. *)
Definition param_step (st : Z * Z) (char : jsstring) : Z * Z :=
  let '(paramCount, nestedLevel) := st in
  if str_eqb char [LPAREN] then (paramCount, nestedLevel + 1)
  else if str_eqb char [RPAREN] then (paramCount, nestedLevel - 1)
  else if str_eqb char [COMMA] && (nestedLevel =? 0) then (paramCount + 1, nestedLevel)
  else (paramCount, nestedLevel).

Definition count_params (relevantText : jsstring) : Z :=
  fst (fold_left param_step (string_iterator relevantText) (0, 0)).

Definition getCurrentParameterIndex (line : jsstring) (position : Z) : Z :=
  let textToCursor := substring line 0 position in
  let openParenIndex := lastIndexOf textToCursor LPAREN in
  if openParenIndex =? -1 then 0
  else
    let relevantText := substring_from textToCursor (openParenIndex + 1) in
    count_params relevantText.

(** The specification's [ParameterIndexAt], from its words: scan left from
    the cursor for the last open parenthesis that is not closed before the
    cursor, 0 when there is none; from there to the cursor count the
    commas at nesting depth 0. *)
Fixpoint scan_left_unmatched (before_rev : jsstring) (closed : nat)
    (after : jsstring) : option jsstring :=
  match before_rev with
  | [] => None
  | c :: r =>
      if N.eqb c LPAREN then
        match closed with
        | O => Some after
        | S k => scan_left_unmatched r k (c :: after)
        end
      else if N.eqb c RPAREN then scan_left_unmatched r (S closed) (c :: after)
      else scan_left_unmatched r closed (c :: after)
  end.

Fixpoint commas_at_depth0 (s : jsstring) (depth : Z) : Z :=
  match s with
  | [] => 0
  | c :: t =>
      if N.eqb c LPAREN then commas_at_depth0 t (depth + 1)
      else if N.eqb c RPAREN then commas_at_depth0 t (depth - 1)
      else if N.eqb c COMMA && (depth =? 0) then 1 + commas_at_depth0 t depth
      else commas_at_depth0 t depth
  end.

Definition ParameterIndexAt_spec (line : jsstring) (pos : Z) : Z :=
  match scan_left_unmatched (rev (substring line 0 pos)) 0 [] with
  | None => 0
  | Some inside => commas_at_depth0 inside 0
  end.

(** [/[\w\d\._]/.test(line[i])]; [line[i]] is [undefined] out of range and
    the string "undefined" does match, so the caller's bound matters. *)
Definition ident_class (c : code_unit) : bool :=
  is_word c || is_digit c || N.eqb c DOT || N.eqb c UNDERSCORE.

Definition test_ident (line : jsstring) (i : Z) : bool :=
  match at_ line i with
  | Some c => ident_class c
  | None => true
  end.

Record range := { start : Z; end_ : Z }.

(** [while (start > 0 && test(line[start - 1])) start--] *)
Fixpoint while_start (fuel : nat) (line : jsstring) (start : Z) : Z :=
  match fuel with
  | O => start
  | S f =>
      if (0 <? start) && test_ident line (start - 1)
      then while_start f line (start - 1)
      else start
  end.

(** [while (end < line.length && test(line[end])) end++] *)
Fixpoint while_end (fuel : nat) (line : jsstring) (e : Z) : Z :=
  match fuel with
  | O => e
  | S f =>
      if (e <? len line) && test_ident line e
      then while_end f line (e + 1)
      else e
  end.

Definition getWordRangeAtPosition (line : jsstring) (position : Z) : option range :=
  if (match line with [] => true | _ => false end)
     || (position <? 0) || (position >=? len line) then None
  else if negb (test_ident line position) then None
  else
    let start := while_start (Z.to_nat position) line position in
    let e := while_end (Z.to_nat (len line - (position + 1))) line (position + 1) in
    if (start =? e) || (e <=? start) then None
    else Some {| start := start; end_ := e |}.

(** ** Prompts

    The four template literals of the handlers, with their layout; each
    is trimmed before it is sent.  [${x}] of an [undefined] value reads
    "undefined". *)

Definition interpolate (x : option jsstring) : jsstring :=
  match x with
  | Some s => s
  | None => lit "undefined"
  end.

Definition completion_prompt (context : jsstring) (currentLine : option jsstring) : jsstring :=
  trim (lit "
                        You are an intelligent and helpful Python coding assistant.

                        ### Context
                        Here is the recent Python code context:
                        "
  ++ context
  ++ lit "

                        ### Current Line
                        The user is typing:
                        "
  ++ interpolate currentLine
  ++ lit "

                        ### Objective
                        Predict the next line(s) of valid Python code the user is likely to write. Your suggestions should be clean, executable, and contextually relevant.

                        ### Response Format
                        Return up to 3 suggestions, each numbered. Do not repeat the current line.

                        1.").

Definition resolve_prompt (label : jsstring) : jsstring :=
  trim (lit "
                        You are a Python documentation assistant.
                        
                        ### Task
                        Write a short but informative docstring for the following code or expression. Use a style consistent with Python's built-in documentation.
                        
                        ### Code
                        "
  ++ [QUOTE]
  ++ label
  ++ [QUOTE]
  ++ lit "
                        
                        ### Response Format
                        <summary line>
<detailed explanation, if applicable>
                        ").

Definition signature_prompt (functionName : jsstring) : jsstring :=
  trim (lit "
                        You are a Python API assistant.
                        
                        ### Task
                        Provide the function signature (name and parameters) for the following Python function.
                        
                        ### Function
                        "
  ++ [QUOTE]
  ++ functionName
  ++ [QUOTE]
  ++ lit "
                        
                        ### Response Format
                        <function_signature>
                        ").

Definition hover_prompt (word line : jsstring) : jsstring :=
  trim (lit "
                    You are a helpful AI assistant specialized in Python programming.
                    
                    ### Task
                    Explain what the following Python token or function does in one or two concise sentences. Assume the user is hovering over it in their IDE.
                    
                    ### Code
                    "
  ++ [QUOTE]
  ++ word
  ++ [QUOTE]
  ++ lit "
                    
                    ### Context
                    "
  ++ [QUOTE]
  ++ line
  ++ [QUOTE]
  ++ lit "
                    
                    ### Response Format
                    Respond with a brief, technical explanation formatted in Markdown.
                    ").

(** ** Values, errors and the world around the server *)

(** What [JSON.parse] builds, and [undefined] for a property that is not
    there.  An object lists its own properties, one entry per key. *)
Inductive value :=
| VUndefined
| VNull
| VBool (b : bool)
| VNumber (x : spec_float)
| VString (s : jsstring)
| VArray (elems : list value)
| VObject (props : list (jsstring * value)).

Definition truthy (v : value) : bool :=
  match v with
  | VUndefined | VNull => false
  | VBool b => b
  | VNumber (S754_zero _) | VNumber S754_nan => false
  | VNumber _ => true
  | VString [] => false
  | VString _ => true
  | VArray _ | VObject _ => true
  end.

Inductive error :=
| Error (message : jsstring)
| TypeError
| SystemError (code : jsstring).

(** How a call of an async function ends: a [return] (its promise
    fulfilled), a [throw] (the promise rejected), or neither: the promise
    it awaits never settles, and the caller is never answered. *)
Inductive outcome (A : Type) :=
| Returned (a : A)
| Thrown (e : error)
| Pending.
Arguments Returned {A} a.
Arguments Thrown {A} e.
Arguments Pending {A}.

(** How a synchronous step ends. *)
Inductive completion (A : Type) :=
| Normal (a : A)
| Abrupt (e : error).
Arguments Normal {A} a.
Arguments Abrupt {A} e.

Fixpoint own_property (props : list (jsstring * value)) (key : jsstring) : value :=
  match props with
  | [] => VUndefined
  | (k, v) :: r => if str_eqb k key then v else own_property r key
  end.

(** [v.key] for a key that no prototype defines. *)
Definition get (v : value) (key : jsstring) : completion value :=
  match v with
  | VUndefined | VNull => Abrupt TypeError
  | VObject props => Normal (own_property props key)
  | _ => Normal VUndefined
  end.

(** The request put on the wire. *)
Record request := {
  authorization : jsstring;
  inputs : jsstring;
  max_new_tokens : Z
}.

(** [JSON.parse(data)] of a response body: a [SyntaxError] or a value. *)
Inductive parsed :=
| Unparsable
| Parsed (v : value).

(** What the runtime makes of one request.  [https.request] may throw
    while it builds the request, as it does for a credential that is no
    valid header value or a path with a blank: nothing is sent then.
    Else the request is sent and its socket, once connected, sees
    activity from time to time, [gaps] being the stretches, in
    milliseconds, that it stays idle in between, until the response emits
    ['end'], or the request emits ['error'], or the connection closes with
    the response begun and not ended, which emits neither; or the socket
    stays open and silent for good. *)
Inductive upstream :=
| Refused (e : error)
| Responds (gaps : list Z) (statusCode : Z) (data : parsed)
| Fails (gaps : list Z) (e : error)
| Cut (gaps : list Z)
| Hangs.

Record world := {
  HUGGINGFACE_API_KEY : option jsstring;
  documents : jsstring -> option jsstring;
  network : request -> upstream
}.

(** An effectful computation: its outcome and the requests it sent. *)
Definition Async (A : Type) : Type := world -> outcome A * list request.

Definition ret {A} (a : A) : Async A := fun _ => (Returned a, []).

Definition throw {A} (e : error) : Async A := fun _ => (Thrown e, []).

Definition bind {A B} (m : Async A) (k : A -> Async B) : Async B :=
  fun w =>
    match m w with
    | (Returned a, sent) => let (r, sent') := k a w in (r, sent ++ sent')
    | (Thrown e, sent) => (Thrown e, sent)
    | (Pending, sent) => (Pending, sent)
    end.

Definition try_catch {A} (m : Async A) (handler : error -> Async A) : Async A :=
  fun w =>
    match m w with
    | (Returned a, sent) => (Returned a, sent)
    | (Thrown e, sent) => let (r, sent') := handler e w in (r, sent ++ sent')
    | (Pending, sent) => (Pending, sent)
    end.

Notation "x <- m ;; k" := (bind m (fun x => k))
  (at level 61, m at next level, right associativity).

(** Calling a string method on a value: a [TypeError] on anything that is
    not a string ([JSON.parse] builds no function). *)
Definition as_string (v : value) : Async jsstring :=
  match v with
  | VString s => ret s
  | _ => throw TypeError
  end.

Definition documents_get (uri : jsstring) : Async (option jsstring) :=
  fun w => (Returned (documents w uri), []).

(** ** The inference client *)

Definition GENERATED_TEXT : jsstring := lit "generated_text".

(** The [try] block of the ['end'] listener. *)
Definition read_generated_text (parsedData : value) : completion value :=
  match get parsedData GENERATED_TEXT with
  | Abrupt e => Abrupt e
  | Normal g =>
      if truthy g then Normal g
      else
        match parsedData with
        | VArray (first :: _) =>
            match get first GENERATED_TEXT with
            | Abrupt e => Abrupt e
            | Normal g0 =>
                if truthy g0 then Normal g0 else Normal (VString [])
            end
        | _ => Normal (VString [])
        end
  end.

(** The ['end'] listener: the value the promise is resolved with. *)
Definition on_end (statusCode : Z) (data : parsed) : value :=
  if negb (statusCode =? 200) then VString []
  else
    match data with
    | Unparsable => VString []
    | Parsed parsedData =>
        match read_generated_text parsedData with
        | Normal v => v
        | Abrupt _ => VString []
        end
    end.

Definition REQUEST_TIMEOUT : Z := 5000.

Definition key_missing : error := Error (lit "Hugging Face API Key is missing").
Definition timed_out : error := Error (lit "Request timed out").

(** [req.setTimeout(REQUEST_TIMEOUT, ...)]: the listener runs once the
    socket has stayed idle that long; activity starts the count again. *)
Definition timer_fires (gaps : list Z) : bool :=
  existsb (fun gap => REQUEST_TIMEOUT <=? gap) gaps.

(** The promise settles with the first listener that runs, and stays
    pending when none does. *)
Definition settle (u : upstream) : outcome value :=
  match u with
  | Refused e => Thrown e
  | Responds gaps statusCode data =>
      if timer_fires gaps then Thrown timed_out
      else Returned (on_end statusCode data)
  | Fails gaps e =>
      if timer_fires gaps then Thrown timed_out else Thrown e
  | Cut gaps =>
      if timer_fires gaps then Thrown timed_out else Pending
  | Hangs => Thrown timed_out
  end.

Definition callHuggingFaceAPI (prompt : jsstring) (maxTokens : Z) : Async value :=
  fun w =>
    match HUGGINGFACE_API_KEY w with
    | None | Some [] => (Thrown key_missing, [])
    | Some key =>
        let rq := {| authorization := lit "Bearer " ++ key;
                     inputs := prompt;
                     max_new_tokens := maxTokens |} in
        match network w rq with
        | Refused e => (Thrown e, [])
        | u => (settle u, [rq])
        end
    end.

(** ** Completion *)

Record CompletionItem := {
  label : jsstring;
  kind : option Z;
  sortText : option jsstring;
  insertText : option jsstring;
  detail : option jsstring;
  documentation : option jsstring
}.

(** [CompletionItemKind.Text] *)
Definition Text : Z := 1.

(** [/\d+\./] tried at the start of [s]: what follows the match.  The
    greedy run of digits gives nothing back, a digit being no dot. *)
Fixpoint skip_digits (s : jsstring) : jsstring :=
  match s with
  | c :: t => if is_digit c then skip_digits t else s
  | [] => []
  end.

Definition match_numbering (s : jsstring) : option jsstring :=
  match s with
  | c :: t =>
      if is_digit c then
        match skip_digits t with
        | d :: r => if N.eqb d DOT then Some r else None
        | [] => None
        end
      else None
  | [] => None
  end.

(** [s.split(/\d+\./)]: the pattern is tried at each position in turn; a
    match closes the piece gathered so far and the scan resumes after it.
    Every round consumes a code unit, so [length s] rounds are enough. *)
Fixpoint split_loop (fuel : nat) (piece_rev s : jsstring) : list jsstring :=
  match s with
  | [] => [rev piece_rev]
  | c :: t =>
      match fuel with
      | O => [rev piece_rev ++ s]
      | S f =>
          match match_numbering s with
          | Some r => rev piece_rev :: split_loop f [] r
          | None => split_loop f (c :: piece_rev) t
          end
      end
  end.

Definition split_numbering (s : jsstring) : list jsstring :=
  split_loop (List.length s) [] s.

(** [String(index)] for an array index. *)
Fixpoint digits_of_uint (u : Decimal.uint) : jsstring :=
  match u with
  | Decimal.Nil => []
  | Decimal.D0 r => 48%N :: digits_of_uint r
  | Decimal.D1 r => 49%N :: digits_of_uint r
  | Decimal.D2 r => 50%N :: digits_of_uint r
  | Decimal.D3 r => 51%N :: digits_of_uint r
  | Decimal.D4 r => 52%N :: digits_of_uint r
  | Decimal.D5 r => 53%N :: digits_of_uint r
  | Decimal.D6 r => 54%N :: digits_of_uint r
  | Decimal.D7 r => 55%N :: digits_of_uint r
  | Decimal.D8 r => 56%N :: digits_of_uint r
  | Decimal.D9 r => 57%N :: digits_of_uint r
  end.

Definition String_of_index (index : nat) : jsstring :=
  digits_of_uint (Nat.to_uint index).

(** [s.padStart(n, '0')] *)
Definition padStart0 (s : jsstring) (n : nat) : jsstring :=
  repeat 48%N (n - List.length s) ++ s.

Definition text_item (text sortKey : jsstring) : CompletionItem :=
  {| label := text;
     kind := Some Text;
     sortText := Some sortKey;
     insertText := Some text;
     detail := None;
     documentation := None |}.

(** [s => s.trim().length > 0] *)
Definition usable (s : jsstring) : bool := 0 <? len (trim s).

(** [suggestions.forEach((suggestion, index) => ...)] *)
Fixpoint push_suggestions (suggestions : list jsstring) (index : nat)
    (completionItems : list CompletionItem) : list CompletionItem :=
  match suggestions with
  | [] => completionItems
  | suggestion :: rest =>
      let cleanSuggestion := trim suggestion in
      push_suggestions rest (S index)
        (match cleanSuggestion with
         | [] => completionItems
         | _ => completionItems
                ++ [text_item cleanSuggestion (padStart0 (String_of_index index) 5)]
         end)
  end.

(** Lines 194-219 of [getAICompletion]: the reply made into candidates. *)
Definition parse_completions (completionText : jsstring) : list CompletionItem :=
  let suggestions := filter usable (split_numbering completionText) in
  if (len suggestions =? 0) && (0 <? len (trim completionText)) then
    [text_item (trim completionText) (lit "00000")]
  else
    push_suggestions suggestions 0 [].

Definition getAICompletion (context : jsstring) (currentLine : option jsstring)
    : Async (list CompletionItem) :=
  try_catch
    (let prompt := completion_prompt context currentLine in
     completionText <- callHuggingFaceAPI prompt 150 ;;
     text <- as_string completionText ;;
     ret (parse_completions text))
    (fun _ => ret []).

Record Position := { line : Z; character : Z }.

Record TextDocumentPositionParams := {
  uri : jsstring;
  position : Position
}.

Definition onCompletion (textDocumentPosition : TextDocumentPositionParams)
    : Async (list CompletionItem) :=
  document <- documents_get (uri textDocumentPosition) ;;
  let position := position textDocumentPosition in
  match document with
  | None => ret []
  | Some text =>
      let lines := split text LF in
      let currentLine := at_ lines (line position) in
      let startLine := Z.max 0 (line position - 5) in
      let contextLines := slice lines startLine (line position + 1) in
      let context := join contextLines [LF] in
      try_catch (getAICompletion context currentLine) (fun _ => ret [])
  end.

(** ** Completion resolve *)

(** [a || b] on strings *)
Definition or_else (a b : jsstring) : jsstring :=
  match a with
  | [] => b
  | _ => a
  end.

(** Lines 245-252: the item with its fields overwritten from the reply. *)
Definition apply_doc (item : CompletionItem) (docText : jsstring) : CompletionItem :=
  let lines := split docText LF in
  match lines with
  | first :: _ =>
      {| label := label item;
         kind := kind item;
         sortText := sortText item;
         insertText := insertText item;
         detail := Some (trim first);
         documentation :=
           Some (or_else (trim (join (slice lines 1 (len lines)) [LF])) (trim first)) |}
  | [] => item
  end.

Definition onCompletionResolve (item : CompletionItem) : Async CompletionItem :=
  try_catch
    (let prompt := resolve_prompt (label item) in
     docText <- callHuggingFaceAPI prompt 100 ;;
     text <- as_string docText ;;
     ret (apply_doc item text))
    (fun _ => ret item).

(** ** Signature help *)

Record ParameterInformation := {
  param_label : jsstring;
  param_documentation : jsstring
}.

Record SignatureInformation := {
  sig_label : jsstring;
  sig_documentation : jsstring;
  parameters : list ParameterInformation
}.

Record SignatureHelp := {
  signatures : list SignatureInformation;
  activeSignature : Z;
  activeParameter : Z
}.

(** [/[\w\._]/.test(currentLine[i])] *)
Definition test_name (currentLine : jsstring) (i : Z) : bool :=
  match at_ currentLine i with
  | Some c => is_word c || N.eqb c DOT || N.eqb c UNDERSCORE
  | None => true
  end.

(** [while (i >= 0 && test(currentLine[i])) { functionName = currentLine[i] + functionName; i-- }] *)
Fixpoint while_name (fuel : nat) (currentLine : jsstring) (i : Z)
    (functionName : jsstring) : jsstring :=
  match fuel with
  | O => functionName
  | S f =>
      if (i >=? 0) && test_name currentLine i
      then while_name f currentLine (i - 1)
             (interpolate (option_map (fun c => [c]) (at_ currentLine i)) ++ functionName)
      else functionName
  end.

(** [signature.match(/\((.*?)\)/)]: the first group of the leftmost
    match; the dot stops at a line terminator. *)
Definition is_line_terminator (c : code_unit) : bool :=
  N.eqb c 10 || N.eqb c 13 || N.eqb c 8232 || N.eqb c 8233.

Fixpoint lazy_group (s : jsstring) : option jsstring :=
  match s with
  | [] => None
  | c :: t =>
      if N.eqb c RPAREN then Some []
      else if is_line_terminator c then None
      else option_map (cons c) (lazy_group t)
  end.

Fixpoint match_paren_group (s : jsstring) : option jsstring :=
  match s with
  | [] => None
  | c :: t =>
      if N.eqb c LPAREN then
        match lazy_group t with
        | Some g => Some g
        | None => match_paren_group t
        end
      else match_paren_group t
  end.

(** [params.forEach((param, index) => parameterList.push(...))] *)
Fixpoint push_parameters (params : list jsstring) (index : nat)
    (parameterList : list ParameterInformation) : list ParameterInformation :=
  match params with
  | [] => parameterList
  | param :: rest =>
      push_parameters rest (S index)
        (parameterList
         ++ [{| param_label := trim param;
                param_documentation := lit "Parameter " ++ String_of_index (index + 1) |}])
  end.

Definition parse_signature (signatureText : jsstring) (currentLine : jsstring)
    (character : Z) : SignatureHelp :=
  let signature := trim signatureText in
  let documentation := lit "No documentation available." in
  let parameterList :=
    match match_paren_group signature with
    | Some (c :: g) => push_parameters (split (c :: g) COMMA) 0 []
    | _ => []
    end in
  {| signatures := [{| sig_label := signature;
                       sig_documentation := documentation;
                       parameters := parameterList |}];
     activeSignature := 0;
     activeParameter := getCurrentParameterIndex currentLine character |}.

Definition onSignatureHelp (params : TextDocumentPositionParams)
    : Async (option SignatureHelp) :=
  document <- documents_get (uri params) ;;
  let position := position params in
  match document with
  | None => ret None
  | Some text =>
      let lines := split text LF in
      match at_ lines (line position) with
      | None => throw TypeError
      | Some currentLine =>
          let functionCallStart :=
            lastIndexOf (substring currentLine 0 (character position)) LPAREN in
          if functionCallStart =? -1 then ret None
          else
            let functionName :=
              while_name (Z.to_nat functionCallStart) currentLine
                (functionCallStart - 1) [] in
            try_catch
              (let prompt := signature_prompt functionName in
               signatureText <- callHuggingFaceAPI prompt 100 ;;
               text <- as_string signatureText ;;
               ret (Some (parse_signature text currentLine (character position))))
              (fun _ => ret None)
      end
  end.

(** ** Hover *)

Record Hover := {
  contents_kind : jsstring;
  contents_value : jsstring
}.

Definition no_information (word : jsstring) : jsstring :=
  lit "No information available for '" ++ word ++ lit "'".

Definition onHover (params : TextDocumentPositionParams) : Async (option Hover) :=
  document <- documents_get (uri params) ;;
  let position := position params in
  match document with
  | None => ret None
  | Some text =>
      let lines := split text LF in
      if line position >=? len lines then ret None
      else
        match at_ lines (line position) with
        | None => throw TypeError
        | Some line =>
            if character position >=? len line then ret None
            else
              match getWordRangeAtPosition line (character position) with
              | None => ret None
              | Some wordRange =>
                  let word := substring line (start wordRange) (end_ wordRange) in
                  if (match word with [] => true | _ => false end)
                     || (len (trim word) =? 0) then ret None
                  else
                    try_catch
                      (let prompt := hover_prompt word line in
                       hoverText <- callHuggingFaceAPI prompt 100 ;;
                       text <- as_string hoverText ;;
                       ret (Some {| contents_kind := lit "markdown";
                                    contents_value :=
                                      or_else (trim text) (no_information word) |}))
                      (fun _ => ret None)
              end
        end
  end.

(** ** Vocabulary of the statements *)

(** Position [i] of [line] holds a character of the identifier class
    (letters, digits, underscore, dot); false outside the line. *)
Definition ident_at (line : jsstring) (i : Z) : bool :=
  match at_ line i with
  | Some c => ident_class c
  | None => false
  end.

(** The last open parenthesis of [s]: its index and the text after it. *)
Fixpoint last_open (s : jsstring) : option (nat * jsstring) :=
  match s with
  | [] => None
  | c :: t =>
      match last_open t with
      | Some (k, r) => Some (S k, r)
      | None => if N.eqb c LPAREN then Some (O, t) else None
      end
  end.

(** The commas of [s] before its first closing parenthesis. *)
Fixpoint commas_to_close (s : jsstring) : Z :=
  match s with
  | [] => 0
  | c :: t =>
      if N.eqb c RPAREN then 0
      else if N.eqb c COMMA then 1 + commas_to_close t
      else commas_to_close t
  end.

(** The loop body of [getCurrentParameterIndex] on a single code unit. *)
Definition unit_step (st : Z * Z) (c : code_unit) : Z * Z := param_step st [c].

(** The credential is absent: unset, or set to the empty string. *)
Definition key_absent (w : world) : Prop :=
  HUGGINGFACE_API_KEY w = None \/ HUGGINGFACE_API_KEY w = Some [].

Definition failed {A} (o : outcome A) : bool :=
  match o with
  | Thrown _ => true
  | _ => false
  end.

(** Every inference call of this world ends in an error. *)
Definition client_fails (w : world) : Prop :=
  forall prompt maxTokens, failed (fst (callHuggingFaceAPI prompt maxTokens w)) = true.

(** The request is sent and its socket stays idle for 5000 milliseconds
    at a stretch before anything ends the exchange. *)
Definition stalls (u : upstream) : bool :=
  match u with
  | Refused _ => false
  | Responds gaps _ _ | Fails gaps _ | Cut gaps =>
      existsb (fun gap => 5000 <=? gap) gaps
  | Hangs => true
  end.

(** The runtime throws while it builds the request. *)
Definition refused (u : upstream) : bool :=
  match u with
  | Refused _ => true
  | _ => false
  end.

(** The time an exchange takes at the least: its idle stretches, one after
    the other. *)
Definition elapsed (gaps : list Z) : Z := fold_right Z.add 0 gaps.

(** The line the cursor is on, when the document is open and has it. *)
Definition cursor_line (w : world) (p : TextDocumentPositionParams) : option jsstring :=
  match documents w (uri p) with
  | Some text => at_ (split text LF) (line (position p))
  | None => None
  end.

(** The generated-text field a parsed body exposes: its own, for an
    object; the one of its first element, for a non-empty array. *)
Definition field (v : value) : option value :=
  match v with
  | VObject props =>
      match own_property props GENERATED_TEXT with
      | VUndefined => None
      | g => Some g
      end
  | _ => None
  end.

Definition exposed (parsedData : value) : option value :=
  match parsedData with
  | VObject _ => field parsedData
  | VArray (first :: _) => field first
  | _ => None
  end.

(** A separator of the completion parser: digits, at least one, and a dot. *)
Fixpoint digits_then_dot (s : jsstring) : bool :=
  match s with
  | [] => false
  | [d] => N.eqb d DOT
  | c :: t => is_digit c && digits_then_dot t
  end.

Definition is_numbering (s : jsstring) : bool :=
  match s with
  | c :: t => is_digit c && digits_then_dot t
  | [] => false
  end.

(** Pieces put back around their separators. *)
Fixpoint interleave (pieces seps : list jsstring) : jsstring :=
  match pieces, seps with
  | p :: ps, sep :: seps' => p ++ sep ++ interleave ps seps'
  | p :: _, [] => p
  | [], _ => []
  end.

Definition sort_key (index : nat) : jsstring :=
  padStart0 (String_of_index index) 5.

(** One candidate per segment, numbered from [index] on. *)
Fixpoint numbered (segments : list jsstring) (index : nat) : list CompletionItem :=
  match segments with
  | [] => []
  | s :: r => text_item (trim s) (sort_key index) :: numbered r (S index)
  end.

(** No numbering lies inside [p]. *)
Definition free_of_numbering (p : jsstring) : Prop :=
  forall pre sep post, p = pre ++ sep ++ post -> is_numbering sep = false.

Definition ends_with_digit (p : jsstring) : bool :=
  match rev p with
  | c :: _ => is_digit c
  | [] => false
  end.

(** A text cut at its numberings, read from the left: no piece holds a
    numbering, and a piece that a separator follows does not end with a
    digit, so that the separator starts where the leftmost numbering
    starts and takes all its digits. *)
Fixpoint well_cut (pieces seps : list jsstring) : Prop :=
  match pieces with
  | [] => False
  | p :: ps =>
      free_of_numbering p
      /\ match seps with
         | [] => ps = []
         | sep :: seps' =>
             ends_with_digit p = false /\ is_numbering sep = true
             /\ well_cut ps seps'
         end
  end.

(** Nothing matches across the end of the piece gathered so far. *)
Definition clean (piece rest : jsstring) : Prop :=
  forall v u, piece = v ++ u -> u <> [] -> match_numbering (u ++ rest) = None.

(** The [n] numerals counted up from [u], least digit first, have five
    digits at most. *)
Fixpoint all_short (n : nat) (u : Decimal.uint) : bool :=
  match n with
  | O => true
  | S m => (Decimal.nb_digits u <=? 5)%nat && all_short m (Decimal.Little.succ u)
  end.

(** What a call of the client puts on the wire: nothing without the
    credential or when the runtime refuses, else the one request. *)
Definition wire (w : world) (prompt : jsstring) (maxTokens : Z) : list request :=
  match HUGGINGFACE_API_KEY w with
  | None | Some [] => []
  | Some key =>
      let rq := {| authorization := lit "Bearer " ++ key;
                   inputs := prompt;
                   max_new_tokens := maxTokens |} in
      if refused (network w rq) then [] else [rq]
  end.

(** The prompt each handler sends, when it sends one. *)
Definition completion_request (w : world) (p : TextDocumentPositionParams)
    : option jsstring :=
  match documents w (uri p) with
  | None => None
  | Some text =>
      let lines := split text LF in
      Some (completion_prompt
              (join (slice lines (Z.max 0 (line (position p) - 5))
                       (line (position p) + 1)) [LF])
              (at_ lines (line (position p))))
  end.

Definition signature_request (w : world) (p : TextDocumentPositionParams)
    : option jsstring :=
  match cursor_line w p with
  | None => None
  | Some currentLine =>
      let functionCallStart :=
        lastIndexOf (substring currentLine 0 (character (position p))) LPAREN in
      if functionCallStart =? -1 then None
      else Some (signature_prompt
                   (while_name (Z.to_nat functionCallStart) currentLine
                      (functionCallStart - 1) []))
  end.

Definition hover_request (w : world) (p : TextDocumentPositionParams)
    : option jsstring :=
  match cursor_line w p with
  | None => None
  | Some l =>
      match getWordRangeAtPosition l (character (position p)) with
      | None => None
      | Some r => Some (hover_prompt (substring l (start r) (end_ r)) l)
      end
  end.

Definition sent_for (w : world) (prompt : option jsstring) (maxTokens : Z)
    : list request :=
  match prompt with
  | None => []
  | Some pr => wire w pr maxTokens
  end.

(** The inference call gives the handler nothing to parse: it throws, or
    it fulfils with a value that is not a string. *)
Definition unusable (o : outcome value) : bool :=
  match o with
  | Returned (VString _) => false
  | Returned _ => true
  | Thrown _ => true
  | Pending => false
  end.

(** Position [i] of [line] holds a character of the class [[\w\._]] of
    function names; false outside the line. *)
Definition name_at (line : jsstring) (i : Z) : bool :=
  match at_ line i with
  | Some c => is_word c || N.eqb c DOT || N.eqb c UNDERSCORE
  | None => false
  end.

(** One parameter per piece, numbered from [index] on. *)
Fixpoint numbered_parameters (params : list jsstring) (index : nat)
    : list ParameterInformation :=
  match params with
  | [] => []
  | param :: rest =>
      {| param_label := trim param;
         param_documentation := lit "Parameter " ++ String_of_index (index + 1) |}
      :: numbered_parameters rest (S index)
  end.

(** The order of strings by code units, the one a lexical sort uses. *)
Fixpoint lex_lt (a b : jsstring) : bool :=
  match a, b with
  | _, [] => false
  | [], _ :: _ => true
  | x :: a', y :: b' => N.ltb x y || (N.eqb x y && lex_lt a' b')
  end.

(** The sort key of a numeral given least digit first. *)
Definition key_of (u : Decimal.uint) : jsstring :=
  padStart0 (digits_of_uint (Decimal.rev u)) 5.

(** The keys of the [n] numerals counted up from [u] grow at each step. *)
Fixpoint keys_increase (n : nat) (u : Decimal.uint) : bool :=
  match n with
  | O => true
  | S m => lex_lt (key_of u) (key_of (Decimal.Little.succ u))
           && keys_increase m (Decimal.Little.succ u)
  end.

(** Two worlds that differ in nothing but what the network answers to the
    requests it takes. *)
Definition same_inputs (w w' : world) : Prop :=
  HUGGINGFACE_API_KEY w = HUGGINGFACE_API_KEY w'
  /\ (forall u, documents w u = documents w' u)
  /\ (forall rq, refused (network w rq) = refused (network w' rq)).

(** A request of [maxTokens] new tokens under the credential of [w]. *)
Definition carries (w : world) (maxTokens : Z) (rq : request) : Prop :=
  max_new_tokens rq = maxTokens
  /\ exists key, HUGGINGFACE_API_KEY w = Some key /\ key <> []
                 /\ authorization rq = lit "Bearer " ++ key.

(** At most one request, and of that kind. *)
Definition one_request (w : world) (maxTokens : Z) (sent : list request) : Prop :=
  (List.length sent <= 1)%nat /\ forall rq, In rq sent -> carries w maxTokens rq.

(** No parenthesis pair opens before [t]: whatever closing parenthesis
    follows, a line terminator comes first. *)
Definition no_pair_at (t : jsstring) : Prop :=
  forall g post, t = g ++ RPAREN :: post ->
  exists c, In c g /\ is_line_terminator c = true.

(** [g] lies between the first pair of parentheses of [s] on one line:
    an opening parenthesis, [g] without a closing parenthesis or a line
    terminator, a closing parenthesis, and no opening parenthesis before
    that has its closing one on its line. *)
Definition first_pair (s pre g post : jsstring) : Prop :=
  s = pre ++ LPAREN :: g ++ RPAREN :: post
  /\ ~ In RPAREN g
  /\ (forall c, In c g -> is_line_terminator c = false)
  /\ (forall pre1 pre2, pre = pre1 ++ LPAREN :: pre2 ->
        no_pair_at (pre2 ++ LPAREN :: g ++ RPAREN :: post)).

Definition no_pair (s : jsstring) : Prop :=
  forall pre t, s = pre ++ LPAREN :: t -> no_pair_at t.

(** Sample inputs. *)
Definition sample_uri : jsstring := lit "file:///a.py".

Definition sample_text : jsstring := lit "print(x)
foo(a, b".

Definition sample_world (key : option jsstring) (u : upstream) : world :=
  {| HUGGINGFACE_API_KEY := key;
     documents := fun u' => if str_eqb u' sample_uri then Some sample_text else None;
     network := fun _ => u |}.

Definition sample_key : option jsstring := Some (lit "hf_key").

Definition at_position (l c : Z) : TextDocumentPositionParams :=
  {| uri := sample_uri; position := {| line := l; character := c |} |}.

Definition sample_item : CompletionItem := text_item (lit "add") (lit "00000").

Definition body_with_text (text : jsstring) : parsed :=
  Parsed (VArray [VObject [(GENERATED_TEXT, VString text)]]).

(** * Properties *)

(** ** Indexing *)

Lemma at_Some_bounds {A} (s : list A) (i : Z) (c : A) :
  at_ s i = Some c -> 0 <= i < len s.
Proof.
  unfold at_, len. destruct (Z.ltb_spec i 0) as [|Hi]; [discriminate|].
  intros H.
  assert (Hn : nth_error s (Z.to_nat i) <> None) by congruence.
  apply nth_error_Some in Hn. lia.
Qed.

Lemma at_in_range {A} (s : list A) (i : Z) :
  0 <= i < len s -> exists c, at_ s i = Some c.
Proof.
  unfold at_, len. intros [H0 H1].
  destruct (Z.ltb_spec i 0); [lia|].
  destruct (nth_error s (Z.to_nat i)) eqn:E; [eauto|].
  apply nth_error_None in E. lia.
Qed.

Lemma at_out_of_range {A} (s : list A) (i : Z) :
  i < 0 \/ len s <= i -> at_ s i = None.
Proof.
  intros H. destruct (at_ s i) eqn:E; [|reflexivity].
  apply at_Some_bounds in E. lia.
Qed.

Lemma test_ident_in_range (line : jsstring) (i : Z) :
  0 <= i < len line -> test_ident line i = ident_at line i.
Proof.
  intros H. unfold test_ident, ident_at.
  destruct (at_in_range line i H) as [c ->]. reflexivity.
Qed.

Lemma ident_at_bounds (line : jsstring) (i : Z) :
  ident_at line i = true -> 0 <= i < len line.
Proof.
  unfold ident_at. destruct (at_ line i) eqn:E; [|discriminate].
  intros _. eapply at_Some_bounds; eauto.
Qed.

Lemma substring_in_range (s : jsstring) (a b : Z) :
  0 <= a <= b -> b <= len s ->
  substring s a b = firstn (Z.to_nat (b - a)) (skipn (Z.to_nat a) s).
Proof.
  intros Ha Hb. unfold substring, clamp.
  replace (Z.min (Z.max a 0) (len s)) with a by lia.
  replace (Z.min (Z.max b 0) (len s)) with b by lia.
  replace (Z.min a b) with a by lia.
  replace (Z.max a b) with b by lia.
  reflexivity.
Qed.

Lemma substring_at (s : jsstring) (a b : Z) (c : code_unit) :
  0 <= a <= b -> b <= len s ->
  In c (substring s a b) -> exists i, a <= i < b /\ at_ s i = Some c.
Proof.
  intros Ha Hb Hin. rewrite substring_in_range in Hin by assumption.
  apply In_nth_error in Hin. destruct Hin as [n Hn].
  rewrite nth_error_firstn in Hn.
  destruct (Nat.ltb_spec n (Z.to_nat (b - a))) as [Hlt|]; [|discriminate].
  rewrite nth_error_skipn in Hn.
  exists (a + Z.of_nat n). split; [lia|].
  unfold at_. destruct (Z.ltb_spec (a + Z.of_nat n) 0); [lia|].
  replace (Z.to_nat (a + Z.of_nat n)) with (Z.to_nat a + n)%nat by lia.
  exact Hn.
Qed.

Lemma substring_length (s : jsstring) (a b : Z) :
  0 <= a <= b -> b <= len s -> len (substring s a b) = b - a.
Proof.
  intros Ha Hb. rewrite substring_in_range by assumption.
  unfold len in *. rewrite length_firstn, length_skipn. lia.
Qed.

(** ** The word range *)

Lemma while_start_spec (line : jsstring) : forall (fuel : nat) (s : Z),
  0 <= s <= Z.of_nat fuel -> s <= len line ->
  let r := while_start fuel line s in
  0 <= r <= s
  /\ (forall i, r <= i < s -> ident_at line i = true)
  /\ ident_at line (r - 1) = false.
Proof.
  induction fuel as [|f IH]; intros s Hs Hlen; cbn [while_start].
  - assert (s = 0) by lia. subst s. cbn zeta.
    split; [lia|]. split; [intros; lia|].
    unfold ident_at. rewrite at_out_of_range by lia. reflexivity.
  - destruct (Z.ltb_spec 0 s) as [Hpos|Hz]; cbn [andb].
    + destruct (test_ident line (s - 1)) eqn:Et.
      * destruct (IH (s - 1)) as (Hr & Hall & Hmax); [lia|lia|].
        cbn zeta in *. split; [lia|]. split; [|exact Hmax].
        intros i Hi. destruct (Z.eq_dec i (s - 1)) as [->|Hne].
        -- rewrite <- test_ident_in_range by lia. exact Et.
        -- apply Hall. lia.
      * cbn zeta. split; [lia|]. split; [intros; lia|].
        rewrite <- test_ident_in_range by lia. exact Et.
    + assert (s = 0) by lia. subst s. cbn zeta.
      split; [lia|]. split; [intros; lia|].
      unfold ident_at. rewrite at_out_of_range by lia. reflexivity.
Qed.

Lemma while_end_spec (line : jsstring) : forall (fuel : nat) (e : Z),
  0 <= e <= len line -> len line - e <= Z.of_nat fuel ->
  let r := while_end fuel line e in
  e <= r <= len line
  /\ (forall i, e <= i < r -> ident_at line i = true)
  /\ ident_at line r = false.
Proof.
  induction fuel as [|f IH]; intros e He Hf; cbn [while_end].
  - assert (e = len line) by lia. subst e. cbn zeta.
    split; [lia|]. split; [intros; lia|].
    unfold ident_at. rewrite at_out_of_range by lia. reflexivity.
  - destruct (Z.ltb_spec e (len line)) as [Hlt|Hge]; cbn [andb].
    + destruct (test_ident line e) eqn:Et.
      * destruct (IH (e + 1)) as (Hr & Hall & Hmax); [lia|lia|].
        cbn zeta in *. split; [lia|]. split; [|exact Hmax].
        intros i Hi. destruct (Z.eq_dec i e) as [->|Hne].
        -- rewrite <- test_ident_in_range by lia. exact Et.
        -- apply Hall. lia.
      * cbn zeta. split; [lia|]. split; [intros; lia|].
        rewrite <- test_ident_in_range by lia. exact Et.
    + cbn zeta. split; [lia|]. split; [intros; lia|].
      unfold ident_at. rewrite at_out_of_range by lia. reflexivity.
Qed.

Lemma ident_at_out_of_bounds (line : jsstring) (position : Z) :
  position < 0 \/ len line <= position -> ident_at line position = false.
Proof.
  intros H. unfold ident_at. rewrite at_out_of_range by exact H. reflexivity.
Qed.

Lemma word_range_spec (line : jsstring) (position : Z) :
  (ident_at line position = false -> getWordRangeAtPosition line position = None)
  /\ (ident_at line position = true ->
      exists r, getWordRangeAtPosition line position = Some r
        /\ 0 <= start r <= position /\ position < end_ r <= len line
        /\ (forall i, start r <= i < end_ r -> ident_at line i = true)
        /\ ident_at line (start r - 1) = false
        /\ ident_at line (end_ r) = false).
Proof.
  unfold getWordRangeAtPosition. split.
  - intros Hid.
    destruct line as [|c0 line']; [reflexivity|]. cbn [orb].
    destruct (Z.ltb_spec position 0) as [|H0]; [reflexivity|]. cbn [orb].
    destruct (Z.geb_spec position (len (c0 :: line'))) as [|H1]; [reflexivity|].
    rewrite test_ident_in_range by lia. rewrite Hid. reflexivity.
  - intros Hid. pose proof (ident_at_bounds _ _ Hid) as Hb.
    destruct line as [|c0 line'] eqn:El; [unfold len in Hb; cbn in Hb; lia|].
    rewrite <- El in *. cbn [orb].
    destruct (Z.ltb_spec position 0) as [|H0]; [lia|]. cbn [orb].
    destruct (Z.geb_spec position (len line)) as [|H1]; [lia|].
    rewrite test_ident_in_range by lia. rewrite Hid. cbn [negb].
    destruct (while_start_spec line (Z.to_nat position) position)
      as (Hs & Hsall & Hsmax); [lia|lia|].
    destruct (while_end_spec line (Z.to_nat (len line - (position + 1))) (position + 1))
      as (He & Heall & Hemax); [lia|lia|].
    cbn zeta in *.
    set (s := while_start (Z.to_nat position) line position) in *.
    set (e := while_end (Z.to_nat (len line - (position + 1))) line (position + 1)) in *.
    destruct (Z.eqb_spec s e) as [|Hne]; [lia|]. cbn [orb].
    destruct (Z.leb_spec e s) as [|Hlt]; [lia|].
    eexists. split; [reflexivity|]. cbn [start end_].
    split; [lia|]. split; [lia|]. split; [|split; assumption].
    intros i Hi.
    destruct (Z.lt_ge_cases i position) as [Hl|Hg]; [apply Hsall; lia|].
    destruct (Z.eq_dec i position) as [->|Hn]; [exact Hid|].
    apply Heall. lia.
Qed.

Lemma ident_class_spec (c : code_unit) :
  ident_class c = true <->
  ((97 <= c <= 122) \/ (65 <= c <= 90) \/ (48 <= c <= 57) \/ c = 95 \/ c = 46)%N.
Proof.
  unfold ident_class, is_word, is_digit, DOT, UNDERSCORE.
  rewrite !orb_true_iff, !andb_true_iff, !N.leb_le, !N.eqb_eq. lia.
Qed.

(** C9. The identifier class is the letters a-z and A-Z, the digits, the
    underscore and the dot.  [getWordRangeAtPosition] answers [None]
    exactly when the position holds no character of that class (which
    covers every position outside the line); otherwise it answers a range
    that contains the position, lies inside the line, holds identifier
    characters only, and cannot be extended on either side. *)
Theorem getWordRangeAtPosition_maximal (line : jsstring) (position : Z) :
  (forall c, ident_class c = true <->
     ((97 <= c <= 122) \/ (65 <= c <= 90) \/ (48 <= c <= 57) \/ c = 95 \/ c = 46)%N)
  /\ (position < 0 \/ len line <= position -> getWordRangeAtPosition line position = None)
  /\ (ident_at line position = false -> getWordRangeAtPosition line position = None)
  /\ (ident_at line position = true ->
      exists r, getWordRangeAtPosition line position = Some r
        /\ 0 <= start r <= position /\ position < end_ r <= len line
        /\ (forall i, start r <= i < end_ r -> ident_at line i = true)
        /\ ident_at line (start r - 1) = false
        /\ ident_at line (end_ r) = false).
Proof.
  split; [exact ident_class_spec|].
  destruct (word_range_spec line position) as [Hnone Hsome].
  split; [|split; assumption].
  intros Hout. apply Hnone, ident_at_out_of_bounds, Hout.
Qed.

(** ** The handlers, by the way the inference call ends *)

Lemma getAICompletion_cases (context : jsstring) (currentLine : option jsstring)
    (w : world) :
  getAICompletion context currentLine w =
  match callHuggingFaceAPI (completion_prompt context currentLine) 150 w with
  | (Returned (VString text), sent) => (Returned (parse_completions text), sent)
  | (Pending, sent) => (Pending, sent)
  | (_, sent) => (Returned [], sent)
  end.
Proof.
  unfold getAICompletion, try_catch, bind.
  destruct (callHuggingFaceAPI _ 150 w) as [[v|e|] sent];
    [destruct v| |]; cbn; rewrite ?app_nil_r; reflexivity.
Qed.

Lemma onCompletion_cases (p : TextDocumentPositionParams) (w : world) :
  onCompletion p w =
  match documents w (uri p) with
  | None => (Returned [], [])
  | Some text =>
      let lines := split text LF in
      getAICompletion
        (join (slice lines (Z.max 0 (line (position p) - 5)) (line (position p) + 1)) [LF])
        (at_ lines (line (position p))) w
  end.
Proof.
  unfold onCompletion, bind, documents_get.
  destruct (documents w (uri p)) as [text|]; [|reflexivity].
  cbn zeta. unfold try_catch. rewrite getAICompletion_cases.
  destruct (callHuggingFaceAPI _ 150 w) as [[v|e|] sent];
    [destruct v| |]; reflexivity.
Qed.

Lemma onCompletionResolve_cases (item : CompletionItem) (w : world) :
  onCompletionResolve item w =
  match callHuggingFaceAPI (resolve_prompt (label item)) 100 w with
  | (Returned (VString text), sent) => (Returned (apply_doc item text), sent)
  | (Pending, sent) => (Pending, sent)
  | (_, sent) => (Returned item, sent)
  end.
Proof.
  unfold onCompletionResolve, try_catch, bind.
  destruct (callHuggingFaceAPI _ 100 w) as [[v|e|] sent];
    [destruct v| |]; cbn; rewrite ?app_nil_r; reflexivity.
Qed.

(** ** The documentation parser *)

Lemma split_cons (s : jsstring) (sep : code_unit) :
  exists first rest, split s sep = first :: rest.
Proof.
  destruct s as [|c t]; cbn [split]; [eauto|].
  destruct (N.eqb c sep); [eauto|].
  destruct (split t sep); eauto.
Qed.

Lemma slice_tail {A} (x : A) (r : list A) :
  slice (x :: r) 1 (len (x :: r)) = r.
Proof.
  unfold slice, rel_index, len. cbn [List.length].
  destruct (Z.ltb_spec 1 0) as [|_]; [lia|].
  destruct (Z.ltb_spec (Z.of_nat (S (List.length r))) 0) as [|_]; [lia|].
  rewrite Z.min_id.
  replace (Z.min 1 (Z.of_nat (S (List.length r)))) with 1 by lia.
  change (Z.to_nat 1) with 1%nat. cbn [skipn].
  replace (Z.to_nat (Z.of_nat (S (List.length r)) - 1)) with (List.length r) by lia.
  apply firstn_all.
Qed.

Lemma apply_doc_fields (item : CompletionItem) (docText : jsstring) :
  exists first rest,
    split docText LF = first :: rest
    /\ apply_doc item docText =
       {| label := label item;
          kind := kind item;
          sortText := sortText item;
          insertText := insertText item;
          detail := Some (trim first);
          documentation := Some (or_else (trim (join rest [LF])) (trim first)) |}.
Proof.
  destruct (split_cons docText LF) as (first & rest & E).
  exists first, rest. split; [exact E|].
  unfold apply_doc. rewrite E, slice_tail. reflexivity.
Qed.

Lemma split_one_line (s : jsstring) :
  ~ In LF s -> split s LF = [s].
Proof.
  induction s as [|c t IH]; intros Hn; [reflexivity|].
  cbn [split]. destruct (N.eqb_spec c LF) as [->|_].
  - exfalso. apply Hn. left. reflexivity.
  - rewrite IH; [reflexivity|]. intros Hin. apply Hn. right. exact Hin.
Qed.

(** C8 (amended). The resolve parser splits the reply on line breaks; the
    detail is the first line trimmed; the documentation is the remaining
    lines joined by line breaks and trimmed, and when that is empty it is
    the trimmed first line, so it is never blank when the summary is not.
    The two examples of the specification follow. *)
Theorem apply_doc_summary_and_body (item : CompletionItem) :
  (forall docText, exists first rest,
      split docText LF = first :: rest
      /\ detail (apply_doc item docText) = Some (trim first)
      /\ (trim (join rest [LF]) <> [] ->
          documentation (apply_doc item docText) = Some (trim (join rest [LF])))
      /\ (trim (join rest [LF]) = [] ->
          documentation (apply_doc item docText) = Some (trim first))
      /\ (trim first <> [] -> documentation (apply_doc item docText) <> Some [])
      /\ label (apply_doc item docText) = label item)
  /\ (detail (apply_doc item (lit "Adds two numbers.
Returns sum.")) = Some (lit "Adds two numbers.")
      /\ documentation (apply_doc item (lit "Adds two numbers.
Returns sum.")) = Some (lit "Returns sum."))
  /\ (forall docText, ~ In LF docText ->
      detail (apply_doc item docText) = Some (trim docText)
      /\ documentation (apply_doc item docText) = Some (trim docText)).
Proof.
  split; [|split].
  - intros docText.
    destruct (apply_doc_fields item docText) as (first & rest & Es & Ea).
    exists first, rest. rewrite Ea. cbn [detail documentation label].
    split; [exact Es|]. split; [reflexivity|].
    unfold or_else.
    destruct (trim (join rest [LF])) as [|c t] eqn:Et.
    + split; [congruence|]. split; [reflexivity|]. split; [|reflexivity].
      intros Hf Hd. apply Hf. congruence.
    + split; [reflexivity|]. split; [discriminate|]. split; [|reflexivity].
      discriminate.
  - split; vm_compute; reflexivity.
  - intros docText Hn.
    destruct (apply_doc_fields item docText) as (first & rest & Es & Ea).
    rewrite split_one_line in Es by exact Hn.
    injection Es as <- <-. rewrite Ea. cbn [detail documentation].
    split; [reflexivity|]. cbn [join]. destruct (trim docText); reflexivity.
Qed.

Lemma apply_doc_summary_and_body_witness :
  trim (join [lit "Returns sum."] [LF]) <> []
  /\ documentation (apply_doc sample_item
        (lit "Adds two numbers.
Returns sum.")) = Some (lit "Returns sum.").
Proof.
  split; [vm_compute; discriminate|].
  destruct (apply_doc_summary_and_body sample_item)
    as (_ & (_ & H) & _).
  exact H.
Defined.

(** C8, as stated, fails: the remaining lines are not only joined, they
    are trimmed as well. *)
Lemma apply_doc_trims_the_body :
  let item := sample_item in
  let docText := lit "Adds two numbers.
  Returns sum.
" in
  tl (split docText LF) = [lit "  Returns sum."; []]
  /\ documentation (apply_doc item docText) = Some (lit "Returns sum.")
  /\ documentation (apply_doc item docText)
     <> Some (join (tl (split docText LF)) [LF]).
Proof.
  cbv zeta. split; [vm_compute; reflexivity|].
  split; [vm_compute; reflexivity|].
  vm_compute. discriminate.
Qed.



(** ** The inference client *)

Lemma callHuggingFaceAPI_key_absent (w : world) (prompt : jsstring) (maxTokens : Z) :
  key_absent w -> callHuggingFaceAPI prompt maxTokens w = (Thrown key_missing, []).
Proof.
  unfold callHuggingFaceAPI. intros [H|H]; rewrite H; reflexivity.
Qed.

Lemma callHuggingFaceAPI_key_present (w : world) (prompt : jsstring) (maxTokens : Z) :
  ~ key_absent w ->
  exists key,
    HUGGINGFACE_API_KEY w = Some key
    /\ callHuggingFaceAPI prompt maxTokens w =
       let rq := {| authorization := lit "Bearer " ++ key;
                    inputs := prompt;
                    max_new_tokens := maxTokens |} in
       (settle (network w rq), if refused (network w rq) then [] else [rq]).
Proof.
  unfold key_absent, callHuggingFaceAPI. intros Hk.
  destruct (HUGGINGFACE_API_KEY w) as [[|c k]|].
  - exfalso. apply Hk. right. reflexivity.
  - eexists. split; [reflexivity|].
    cbv zeta. destruct (network w _); reflexivity.
  - exfalso. apply Hk. left. reflexivity.
Qed.

Lemma on_end_exposed (parsedData : value) :
  on_end 200 (Parsed parsedData) =
  match exposed parsedData with
  | Some g => if truthy g then g else VString []
  | None => VString []
  end.
Proof.
  unfold on_end. cbn [Z.eqb negb Pos.eqb].
  unfold read_generated_text, exposed, field.
  destruct parsedData as [| |b|x|s|elems|props]; cbn [get truthy]; try reflexivity.
  - destruct elems as [|first elems']; [reflexivity|].
    destruct first as [| |b|x|s|es|ps]; cbn [get truthy]; try reflexivity.
    destruct (own_property ps GENERATED_TEXT) as [| |b|x|s|es'|ps'];
      cbn [truthy]; try reflexivity;
      first [destruct b; reflexivity | destruct x; reflexivity | destruct s; reflexivity].
  - destruct (own_property props GENERATED_TEXT) as [| |b|x|s|es'|ps'];
      cbn [truthy]; try reflexivity;
      first [destruct b; reflexivity | destruct x; reflexivity | destruct s; reflexivity].
Qed.

Lemma timer_fires_stalls (gaps : list Z) :
  timer_fires gaps = existsb (fun gap => 5000 <=? gap) gaps.
Proof. reflexivity. Qed.

Lemma quiet_gaps (gaps : list Z) :
  (forall gap, In gap gaps -> gap < 5000) ->
  existsb (fun gap => 5000 <=? gap) gaps = false.
Proof.
  intros H. destruct (existsb _ gaps) eqn:E; [|reflexivity].
  apply existsb_exists in E. destruct E as (gap & Hin & Hge).
  apply Z.leb_le in Hge. specialize (H gap Hin). lia.
Qed.

(** C5 (amended). Once the credential is there, the request is sent and
    the response ends with the socket never idle for 5000 ms, the client
    fulfils its promise, whatever the response: with the empty string for
    any status other than 200, for a body that does not parse, and for a
    body that exposes no generated-text field or a falsy one; with the
    value of that field when the body is an object exposing it, or a
    non-empty array whose first element does, and the value counts as
    true: the generated text when it is a string, and a value that is no
    string as it is. *)
Theorem client_normalises_response (w : world) (prompt key : jsstring)
    (maxTokens statusCode : Z) (gaps : list Z) (data : parsed) :
  let rq := {| authorization := lit "Bearer " ++ key;
               inputs := prompt;
               max_new_tokens := maxTokens |} in
  HUGGINGFACE_API_KEY w = Some key -> key <> [] ->
  network w rq = Responds gaps statusCode data ->
  (forall gap, In gap gaps -> gap < 5000) ->
  exists v,
    callHuggingFaceAPI prompt maxTokens w = (Returned v, [rq])
    /\ (statusCode <> 200 -> v = VString [])
    /\ (data = Unparsable -> v = VString [])
    /\ (forall parsedData, statusCode = 200 -> data = Parsed parsedData ->
        match exposed parsedData with
        | Some (VString text) => v = VString text
        | Some g => v = if truthy g then g else VString []
        | None => v = VString []
        end).
Proof.
  intros rq Hkey Hne Hnet Hquiet.
  exists (on_end statusCode data). split.
  - unfold callHuggingFaceAPI. rewrite Hkey.
    destruct key as [|c k]; [congruence|].
    fold rq. rewrite Hnet. unfold settle.
    rewrite timer_fires_stalls, quiet_gaps by exact Hquiet. reflexivity.
  - split; [|split].
    + intros Hs. unfold on_end.
      destruct (Z.eqb_spec statusCode 200); [contradiction|reflexivity].
    + intros ->. unfold on_end. destruct (negb _); reflexivity.
    + intros parsedData -> ->. rewrite on_end_exposed.
      destruct (exposed parsedData) as [g|]; [|reflexivity].
      destruct g as [| |b|x|s|es|ps]; try reflexivity.
      destruct s; reflexivity.
Qed.

Lemma client_normalises_response_witness :
  let w := sample_world sample_key
             (Responds [120] 200 (body_with_text (lit "x = 1"))) in
  exists v,
    callHuggingFaceAPI (lit "prompt") 100 w
      = (Returned v, [{| authorization := lit "Bearer hf_key";
                         inputs := lit "prompt";
                         max_new_tokens := 100 |}])
    /\ v = VString (lit "x = 1").
Proof.
  cbv zeta.
  destruct (client_normalises_response
              (sample_world sample_key (Responds [120] 200 (body_with_text (lit "x = 1"))))
              (lit "prompt") (lit "hf_key") 100 200 [120] (body_with_text (lit "x = 1")))
    as (v & Hcall & _ & _ & Hv);
    [reflexivity | discriminate | reflexivity | |].
  - intros gap [<-|[]]. lia.
  - exists v. split; [exact Hcall|].
    exact (Hv _ eq_refl eq_refl).
Defined.

(** C5, as stated, fails: a 2xx status other than 200 gives the empty
    string, whatever the body exposes; and with status 200 a field that
    holds [true] is handed on as it is, which is no text. *)
Lemma created_status_gives_empty_text :
  let w := sample_world sample_key
             (Responds [120] 201 (body_with_text (lit "x = 1"))) in
  let w' := sample_world sample_key
              (Responds [120] 200 (Parsed (VObject [(GENERATED_TEXT, VBool true)]))) in
  exposed (VArray [VObject [(GENERATED_TEXT, VString (lit "x = 1"))]])
    = Some (VString (lit "x = 1"))
  /\ fst (callHuggingFaceAPI (lit "prompt") 100 w) = Returned (VString [])
  /\ fst (callHuggingFaceAPI (lit "prompt") 100 w) <> Returned (VString (lit "x = 1"))
  /\ fst (callHuggingFaceAPI (lit "prompt") 100 w') = Returned (VBool true).
Proof.
  cbv zeta. split; [reflexivity|]. split; [reflexivity|].
  split; [vm_compute; discriminate|reflexivity].
Qed.

(** ** The parameter index *)

Lemma str_eqb_single (c x : code_unit) : str_eqb [c] [x] = N.eqb c x.
Proof.
  unfold str_eqb.
  destruct (list_eq_dec N.eq_dec [c] [x]) as [E|E]; destruct (N.eqb_spec c x);
    try reflexivity; congruence.
Qed.

Lemma param_step_pair (st : Z * Z) (c d : code_unit) : param_step st [c; d] = st.
Proof.
  destruct st as [n lvl]. unfold param_step, str_eqb.
  repeat (destruct (list_eq_dec _ _ _); [discriminate|]). reflexivity.
Qed.

Lemma unit_step_cases (n lvl : Z) (c : code_unit) :
  unit_step (n, lvl) c =
  if N.eqb c LPAREN then (n, lvl + 1)
  else if N.eqb c RPAREN then (n, lvl - 1)
  else if N.eqb c COMMA && (lvl =? 0) then (n + 1, lvl)
  else (n, lvl).
Proof.
  unfold unit_step, param_step. rewrite !str_eqb_single. reflexivity.
Qed.

Lemma unit_step_surrogate (st : Z * Z) (c : code_unit) :
  is_lead c = true \/ is_trail c = true -> unit_step st c = st.
Proof.
  intros H. destruct st as [n lvl]. rewrite unit_step_cases.
  assert (Hc : (55296 <= c)%N).
  { unfold is_lead, is_trail in H.
    rewrite !andb_true_iff, !N.leb_le in H. lia. }
  unfold LPAREN, RPAREN, COMMA.
  destruct (N.eqb_spec c 40); [lia|].
  destruct (N.eqb_spec c 41); [lia|].
  destruct (N.eqb_spec c 44); [lia|]. reflexivity.
Qed.

(** Iterating by code points or by code units makes no difference to the
    loop: a surrogate never equals one of the three characters. *)
Lemma fold_string_iterator : forall (n : nat) (s : jsstring) (st : Z * Z),
  (List.length s <= n)%nat ->
  fold_left param_step (string_iterator s) st = fold_left unit_step s st.
Proof.
  induction n as [|n IH]; intros s st Hn.
  - destruct s; [reflexivity|cbn in Hn; lia].
  - destruct s as [|c [|d t]]; [reflexivity|reflexivity|].
    cbn [string_iterator]. destruct (is_lead c && is_trail d) eqn:Ep.
    + apply andb_true_iff in Ep. destruct Ep as [Hc Hd].
      cbn [fold_left]. rewrite param_step_pair.
      rewrite (unit_step_surrogate st c) by (left; exact Hc).
      rewrite (unit_step_surrogate st d) by (right; exact Hd).
      apply IH. cbn in Hn. lia.
    + cbn [fold_left]. rewrite (IH (d :: t)) by (cbn in Hn |- *; lia).
      reflexivity.
Qed.

Lemma fold_units_closed : forall (r : jsstring) (n lvl : Z),
  ~ In LPAREN r -> lvl <= 0 ->
  fst (fold_left unit_step r (n, lvl))
  = n + (if lvl =? 0 then commas_to_close r else 0).
Proof.
  induction r as [|c t IH]; intros n lvl Hno Hlvl.
  - cbn. destruct (lvl =? 0); lia.
  - assert (Hc : c <> LPAREN) by (intros ->; apply Hno; left; reflexivity).
    assert (Ht : ~ In LPAREN t) by (intros Hin; apply Hno; right; exact Hin).
    cbn [fold_left commas_to_close]. rewrite unit_step_cases.
    destruct (N.eqb_spec c LPAREN); [contradiction|].
    destruct (N.eqb_spec c RPAREN).
    + rewrite IH by (assumption || lia).
      destruct (Z.eqb_spec (lvl - 1) 0); [lia|].
      destruct (lvl =? 0); lia.
    + destruct (N.eqb_spec c COMMA); cbn [andb].
      * destruct (Z.eqb_spec lvl 0) as [->|Hl].
        -- rewrite IH by (assumption || lia). cbn [Z.eqb]. lia.
        -- rewrite IH by (assumption || lia).
           destruct (Z.eqb_spec lvl 0); [contradiction|]. lia.
      * rewrite IH by (assumption || lia). reflexivity.
Qed.

Lemma count_params_closed (r : jsstring) :
  ~ In LPAREN r -> count_params r = commas_to_close r.
Proof.
  intros H. unfold count_params.
  rewrite (fold_string_iterator (List.length r)) by apply le_n.
  rewrite fold_units_closed by (assumption || lia). reflexivity.
Qed.

Lemma lastIndexOf_aux_last_open : forall (s : jsstring) (i found : Z),
  lastIndexOf_aux LPAREN s i found =
  match last_open s with
  | Some (k, _) => i + Z.of_nat k
  | None => found
  end.
Proof.
  induction s as [|c t IH]; intros i found; [reflexivity|].
  cbn [lastIndexOf_aux last_open]. rewrite IH.
  destruct (last_open t) as [[k r]|]; [lia|].
  destruct (N.eqb c LPAREN); [cbn; lia|reflexivity].
Qed.

Lemma last_open_none (s : jsstring) : last_open s = None -> ~ In LPAREN s.
Proof.
  induction s as [|c t IH]; [intros _ []|].
  cbn [last_open]. destruct (last_open t) as [[k r]|]; [discriminate|].
  destruct (N.eqb_spec c LPAREN); [discriminate|].
  intros _ [E|Hin]; [congruence|]. apply IH; [reflexivity|exact Hin].
Qed.

Lemma last_open_spec : forall (s : jsstring) (k : nat) (r : jsstring),
  last_open s = Some (k, r) ->
  exists pre, s = pre ++ LPAREN :: r /\ List.length pre = k /\ ~ In LPAREN r.
Proof.
  induction s as [|c t IH]; intros k r; [discriminate|].
  cbn [last_open]. destruct (last_open t) as [[k' r']|] eqn:El.
  - intros H. injection H as <- <-.
    destruct (IH k' r' eq_refl) as (pre & Et & Hl & Hn).
    exists (c :: pre). rewrite Et. cbn. repeat split; [lia|exact Hn].
  - destruct (N.eqb_spec c LPAREN) as [->|]; [|discriminate].
    intros H. injection H as <- <-.
    exists []. repeat split. apply last_open_none. exact El.
Qed.

Lemma skipn_past (pre : jsstring) (x : code_unit) (r : jsstring) :
  skipn (S (List.length pre)) (pre ++ x :: r) = r.
Proof. induction pre as [|c p IH]; [reflexivity|exact IH]. Qed.

(** What the code computes: the commas between the last open parenthesis
    before the cursor and the first closing one after it; the nesting
    level never rises, no open parenthesis being left to meet. *)
Lemma getCurrentParameterIndex_to_first_close (line : jsstring) (position : Z) :
  getCurrentParameterIndex line position =
  match last_open (substring line 0 position) with
  | Some (_, inside) => commas_to_close inside
  | None => 0
  end.
Proof.
  unfold getCurrentParameterIndex, lastIndexOf.
  set (text := substring line 0 position).
  rewrite lastIndexOf_aux_last_open.
  destruct (last_open text) as [[k r]|] eqn:El; [|reflexivity].
  destruct (last_open_spec _ _ _ El) as (pre & Et & Hl & Hn).
  destruct (Z.eqb_spec (0 + Z.of_nat k) (-1)); [lia|].
  assert (Er : substring_from text (0 + Z.of_nat k + 1) = r).
  { unfold substring_from.
    assert (Hlen : len text = Z.of_nat k + 1 + len r).
    { rewrite Et. unfold len. rewrite length_app. cbn [List.length]. lia. }
    rewrite substring_in_range by (unfold len in *; lia).
    replace (Z.to_nat (0 + Z.of_nat k + 1)) with (S (List.length pre)) by lia.
    rewrite Et at 2. rewrite skipn_past.
    apply firstn_all2. unfold len in *. lia. }
  rewrite Er. apply count_params_closed. exact Hn.
Qed.

Lemma scan_left_plain : forall (y rest : jsstring) (closed : nat) (after : jsstring),
  ~ In LPAREN y -> ~ In RPAREN y ->
  scan_left_unmatched (y ++ rest) closed after
  = scan_left_unmatched rest closed (rev y ++ after).
Proof.
  induction y as [|c y IH]; intros rest closed after Ho Hc; [reflexivity|].
  cbn [app scan_left_unmatched rev].
  destruct (N.eqb_spec c LPAREN) as [->|_]; [exfalso; apply Ho; left; reflexivity|].
  destruct (N.eqb_spec c RPAREN) as [->|_]; [exfalso; apply Hc; left; reflexivity|].
  rewrite IH;
    [|intros Hin; apply Ho; right; exact Hin|intros Hin; apply Hc; right; exact Hin].
  rewrite <- app_assoc. reflexivity.
Qed.

Lemma commas_plain : forall (s : jsstring),
  ~ In LPAREN s -> ~ In RPAREN s -> commas_at_depth0 s 0 = commas_to_close s.
Proof.
  induction s as [|c t IH]; intros Ho Hc; [reflexivity|].
  cbn [commas_at_depth0 commas_to_close].
  destruct (N.eqb_spec c LPAREN) as [->|_]; [exfalso; apply Ho; left; reflexivity|].
  destruct (N.eqb_spec c RPAREN) as [->|_]; [exfalso; apply Hc; left; reflexivity|].
  rewrite IH;
    [|intros Hin; apply Ho; right; exact Hin|intros Hin; apply Hc; right; exact Hin].
  destruct (N.eqb c COMMA); reflexivity.
Qed.

(** The code and the specification agree when the call the cursor is in
    is the last one opened: no closing parenthesis after the last open
    one.  They part as soon as a nested call has been closed. *)
Lemma getCurrentParameterIndex_innermost_open (line : jsstring) (position : Z)
    (k : nat) (inside : jsstring) :
  last_open (substring line 0 position) = Some (k, inside) ->
  ~ In RPAREN inside ->
  getCurrentParameterIndex line position = ParameterIndexAt_spec line position.
Proof.
  intros El Hc. rewrite getCurrentParameterIndex_to_first_close, El.
  unfold ParameterIndexAt_spec.
  destruct (last_open_spec _ _ _ El) as (pre & Et & _ & Ho).
  rewrite Et, rev_app_distr. cbn [rev]. rewrite <- app_assoc. cbn [app].
  rewrite scan_left_plain;
    [|intros Hin; apply in_rev in Hin; contradiction
     |intros Hin; apply in_rev in Hin; contradiction].
  cbn [scan_left_unmatched]. rewrite N.eqb_refl, rev_involutive, app_nil_r.
  symmetry. apply commas_plain; assumption.
Qed.

(** C1. At the example of the specification the code answers 1, where the
    last unmatched parenthesis and the commas at depth 0 give 2: the scan
    starts after the last open parenthesis, matched or not. *)
Theorem getCurrentParameterIndex_nested_call :
  getCurrentParameterIndex (lit "foo(a, bar(1,2), ") 17 = 1
  /\ ParameterIndexAt_spec (lit "foo(a, bar(1,2), ") 17 = 2
  /\ getCurrentParameterIndex (lit "f(a,b)") 6 = 1
  /\ ParameterIndexAt_spec (lit "f(a,b)") 6 = 0.
Proof.
  repeat split; vm_compute; reflexivity.
Qed.

(** ** Signature help and hover, by the way the inference call ends *)

Lemma onSignatureHelp_cases (p : TextDocumentPositionParams) (w : world) :
  onSignatureHelp p w =
  match documents w (uri p) with
  | None => (Returned None, [])
  | Some text =>
      match at_ (split text LF) (line (position p)) with
      | None => (Thrown TypeError, [])
      | Some currentLine =>
          let functionCallStart :=
            lastIndexOf (substring currentLine 0 (character (position p))) LPAREN in
          if functionCallStart =? -1 then (Returned None, [])
          else
            match callHuggingFaceAPI
                    (signature_prompt
                       (while_name (Z.to_nat functionCallStart) currentLine
                          (functionCallStart - 1) [])) 100 w with
            | (Returned (VString text'), sent) =>
                (Returned (Some (parse_signature text' currentLine
                                   (character (position p)))), sent)
            | (Pending, sent) => (Pending, sent)
            | (_, sent) => (Returned None, sent)
            end
      end
  end.
Proof.
  unfold onSignatureHelp, bind, documents_get.
  destruct (documents w (uri p)) as [text|]; [|reflexivity].
  cbv zeta. destruct (at_ (split text LF) (line (position p))) as [currentLine|];
    [|reflexivity].
  destruct (_ =? -1); [reflexivity|].
  unfold try_catch, bind.
  destruct (callHuggingFaceAPI _ 100 w) as [[v|e|] sent];
    [destruct v| |]; unfold as_string, ret, throw; cbv beta iota;
    rewrite ?app_nil_r; reflexivity.
Qed.

Lemma onHover_cases (p : TextDocumentPositionParams) (w : world) :
  onHover p w =
  match documents w (uri p) with
  | None => (Returned None, [])
  | Some text =>
      let lines := split text LF in
      if line (position p) >=? len lines then (Returned None, [])
      else
        match at_ lines (line (position p)) with
        | None => (Thrown TypeError, [])
        | Some l =>
            if character (position p) >=? len l then (Returned None, [])
            else
              match getWordRangeAtPosition l (character (position p)) with
              | None => (Returned None, [])
              | Some wordRange =>
                  let word := substring l (start wordRange) (end_ wordRange) in
                  if (match word with [] => true | _ => false end)
                     || (len (trim word) =? 0) then (Returned None, [])
                  else
                    match callHuggingFaceAPI (hover_prompt word l) 100 w with
                    | (Returned (VString text'), sent) =>
                        (Returned (Some {| contents_kind := lit "markdown";
                                           contents_value :=
                                             or_else (trim text') (no_information word) |}),
                         sent)
                    | (Pending, sent) => (Pending, sent)
                    | (_, sent) => (Returned None, sent)
                    end
              end
        end
  end.
Proof.
  unfold onHover, bind, documents_get.
  destruct (documents w (uri p)) as [text|]; [|reflexivity].
  cbv zeta. destruct (_ >=? _); [reflexivity|].
  destruct (at_ (split text LF) (line (position p))) as [l|]; [|reflexivity].
  destruct (_ >=? _); [reflexivity|].
  destruct (getWordRangeAtPosition l (character (position p))) as [r|]; [|reflexivity].
  destruct (_ || _); [reflexivity|].
  unfold try_catch, bind.
  destruct (callHuggingFaceAPI _ 100 w) as [[v|e|] sent];
    [destruct v| |]; unfold as_string, ret, throw; cbv beta iota;
    rewrite ?app_nil_r; reflexivity.
Qed.

(** ** Failures of the inference call *)

Lemma failed_thrown {A} (o : outcome A) :
  failed o = true -> exists e, o = Thrown e.
Proof. destruct o; [discriminate|eauto|discriminate]. Qed.

Lemma handlers_swallow (w : world) :
  client_fails w ->
  (forall p, fst (onCompletion p w) = Returned [])
  /\ (forall item, fst (onCompletionResolve item w) = Returned item)
  /\ (forall p, documents w (uri p) = None \/ cursor_line w p <> None ->
      fst (onSignatureHelp p w) = Returned None)
  /\ (forall p, 0 <= line (position p) -> fst (onHover p w) = Returned None).
Proof.
  intros Hfail.
  assert (Hcall : forall prompt n, exists e sent,
             callHuggingFaceAPI prompt n w = (Thrown e, sent)).
  { intros prompt n. specialize (Hfail prompt n).
    destruct (callHuggingFaceAPI prompt n w) as [o sent]. cbn [fst] in Hfail.
    destruct (failed_thrown _ Hfail) as [e ->]. eauto. }
  split; [|split; [|split]].
  - intros p. rewrite onCompletion_cases.
    destruct (documents w (uri p)) as [text|]; [|reflexivity].
    cbv zeta. rewrite getAICompletion_cases.
    match goal with |- context [callHuggingFaceAPI ?pr ?n w] =>
      destruct (Hcall pr n) as (e & sent & ->) end.
    reflexivity.
  - intros item. rewrite onCompletionResolve_cases.
    destruct (Hcall (resolve_prompt (label item)) 100) as (e & sent & ->).
    reflexivity.
  - intros p Hp. rewrite onSignatureHelp_cases. unfold cursor_line in Hp.
    destruct (documents w (uri p)) as [text|]; [|reflexivity].
    destruct (at_ (split text LF) (line (position p))) as [currentLine|].
    + cbv zeta. destruct (_ =? -1); [reflexivity|].
      match goal with |- context [callHuggingFaceAPI ?pr ?n w] =>
        destruct (Hcall pr n) as (e & sent & ->) end.
      reflexivity.
    + destruct Hp as [Hp|Hp]; [discriminate|contradiction].
  - intros p Hp. rewrite onHover_cases.
    destruct (documents w (uri p)) as [text|]; [|reflexivity].
    cbv zeta. destruct (Z.geb_spec (line (position p)) (len (split text LF))) as [|Hlt];
      [reflexivity|].
    destruct (at_in_range (split text LF) (line (position p))) as [l ->]; [lia|].
    destruct (_ >=? _); [reflexivity|].
    destruct (getWordRangeAtPosition l (character (position p))) as [r|]; [|reflexivity].
    destruct (_ || _); [reflexivity|].
    match goal with |- context [callHuggingFaceAPI ?pr ?n w] =>
      destruct (Hcall pr n) as (e & sent & ->) end.
    reflexivity.
Qed.

Lemma key_absent_client_fails (w : world) : key_absent w -> client_fails w.
Proof.
  intros Hk prompt n. rewrite callHuggingFaceAPI_key_absent by exact Hk. reflexivity.
Qed.

(** C2 (amended). When the credential is absent the client throws, before
    any request is sent, and does not return empty text; every handler
    catches that error as it catches any other failure of the inference
    call, and answers its empty result: the empty list for completion,
    the item as it came for resolve, null for signature help and hover. *)
Theorem inference_errors_are_swallowed (w : world) :
  key_absent w \/ client_fails w ->
  (key_absent w ->
   forall prompt maxTokens,
     callHuggingFaceAPI prompt maxTokens w = (Thrown key_missing, []))
  /\ (forall p, fst (onCompletion p w) = Returned [])
  /\ (forall item, fst (onCompletionResolve item w) = Returned item)
  /\ (forall p, documents w (uri p) = None \/ cursor_line w p <> None ->
      fst (onSignatureHelp p w) = Returned None)
  /\ (forall p, 0 <= line (position p) -> fst (onHover p w) = Returned None).
Proof.
  intros Hfail. split.
  - intros Hk prompt n. apply callHuggingFaceAPI_key_absent. exact Hk.
  - apply handlers_swallow.
    destruct Hfail as [Hk|Hf]; [apply key_absent_client_fails; exact Hk|exact Hf].
Qed.

Lemma inference_errors_are_swallowed_witness :
  let w := sample_world None Hangs in
  key_absent w
  /\ callHuggingFaceAPI (lit "prompt") 100 w = (Thrown key_missing, [])
  /\ fst (onCompletion (at_position 0 5) w) = Returned []
  /\ fst (onCompletionResolve sample_item w) = Returned sample_item
  /\ fst (onSignatureHelp (at_position 1 8) w) = Returned None
  /\ fst (onHover (at_position 0 2) w) = Returned None.
Proof.
  cbv zeta.
  assert (Hk : key_absent (sample_world None Hangs)) by (left; reflexivity).
  split; [exact Hk|].
  destruct (inference_errors_are_swallowed (sample_world None Hangs) (or_introl Hk))
    as (Hkey & Hc & Hr & Hs & Hh).
  split; [apply Hkey; exact Hk|].
  split; [apply Hc|]. split; [apply Hr|].
  split; [apply Hs; right; vm_compute; discriminate|].
  apply Hh. vm_compute. discriminate.
Defined.

(** C2, as stated, fails: with the credential absent the client throws,
    and no handler lets the error through. *)
Lemma missing_key_is_not_propagated :
  let w := sample_world None Hangs in
  callHuggingFaceAPI (completion_prompt (lit "print(x)") (Some (lit "print(x)"))) 150 w
    = (Thrown key_missing, [])
  /\ onCompletion (at_position 0 5) w = (Returned [], [])
  /\ onCompletionResolve sample_item w = (Returned sample_item, [])
  /\ onSignatureHelp (at_position 1 8) w = (Returned None, [])
  /\ onHover (at_position 0 2) w = (Returned None, []).
Proof.
  cbv zeta. repeat split; vm_compute; reflexivity.
Qed.

Lemma stalls_settle (u : upstream) : stalls u = true -> settle u = Thrown timed_out.
Proof.
  destruct u as [e|gaps statusCode data|gaps e|gaps|]; cbn [stalls settle];
    intros H; try discriminate; try reflexivity;
    rewrite timer_fires_stalls, H; reflexivity.
Qed.

Lemma stalls_not_refused (u : upstream) : stalls u = true -> refused u = false.
Proof. destruct u; cbn; congruence. Qed.

(** C6 (amended). The client sets a timer of 5000 ms on the socket of its
    request, which counts the time the socket stays idle.  A call whose
    socket stays idle that long before the response ends or the request
    fails is rejected with the time-out error; the error is not the empty
    text that a response ending sooner with a bad status gives; and every
    handler turns the time-out into its empty result. *)
Theorem timeout_is_swallowed (w : world) (key : jsstring) :
  HUGGINGFACE_API_KEY w = Some key -> key <> [] ->
  (forall prompt maxTokens,
     let rq := {| authorization := lit "Bearer " ++ key;
                  inputs := prompt;
                  max_new_tokens := maxTokens |} in
     (stalls (network w rq) = true ->
      callHuggingFaceAPI prompt maxTokens w = (Thrown timed_out, [rq]))
     /\ (forall gaps statusCode data,
          network w rq = Responds gaps statusCode data ->
          stalls (network w rq) = false -> statusCode <> 200 ->
          callHuggingFaceAPI prompt maxTokens w = (Returned (VString []), [rq])))
  /\ @Thrown value timed_out <> Returned (VString [])
  /\ ((forall rq, stalls (network w rq) = true) ->
      (forall p, fst (onCompletion p w) = Returned [])
      /\ (forall item, fst (onCompletionResolve item w) = Returned item)
      /\ (forall p, documents w (uri p) = None \/ cursor_line w p <> None ->
          fst (onSignatureHelp p w) = Returned None)
      /\ (forall p, 0 <= line (position p) -> fst (onHover p w) = Returned None)).
Proof.
  intros Hkey Hne.
  assert (Hcall : forall prompt n,
             callHuggingFaceAPI prompt n w =
             let rq := {| authorization := lit "Bearer " ++ key;
                          inputs := prompt;
                          max_new_tokens := n |} in
             (settle (network w rq), if refused (network w rq) then [] else [rq])).
  { intros prompt n.
    destruct (callHuggingFaceAPI_key_present w prompt n) as (key' & Hk' & ->).
    - intros [H|H]; rewrite Hkey in H; [discriminate|].
      injection H as ->. congruence.
    - rewrite Hkey in Hk'. injection Hk' as <-. reflexivity. }
  split; [|split; [discriminate|]].
  - intros prompt n rq. rewrite Hcall. fold rq. cbv zeta. split.
    + intros Hs. rewrite (stalls_settle _ Hs), (stalls_not_refused _ Hs).
      reflexivity.
    + intros gaps statusCode data Hnet Hs Hstatus.
      rewrite Hnet in Hs |- *. cbn [stalls] in Hs. cbn [settle refused].
      rewrite timer_fires_stalls, Hs. unfold on_end.
      destruct (Z.eqb_spec statusCode 200); [contradiction|reflexivity].
  - intros Hstall. apply handlers_swallow. intros prompt n.
    rewrite Hcall. cbv zeta. cbn [fst].
    rewrite (stalls_settle _ (Hstall _)). reflexivity.
Qed.

Lemma timeout_is_swallowed_witness :
  let w := sample_world sample_key (Responds [5200] 200 (body_with_text (lit "x = 1"))) in
  HUGGINGFACE_API_KEY w = sample_key
  /\ (forall rq, stalls (network w rq) = true)
  /\ fst (callHuggingFaceAPI (lit "prompt") 100 w) = Thrown timed_out
  /\ fst (onCompletion (at_position 0 5) w) = Returned []
  /\ fst (onCompletionResolve sample_item w) = Returned sample_item
  /\ fst (onSignatureHelp (at_position 1 8) w) = Returned None
  /\ fst (onHover (at_position 0 2) w) = Returned None.
Proof.
  cbv zeta. split; [reflexivity|].
  assert (Hstall : forall rq,
             stalls (network (sample_world sample_key
                        (Responds [5200] 200 (body_with_text (lit "x = 1")))) rq) = true)
    by (intros rq; reflexivity).
  split; [exact Hstall|].
  destruct (timeout_is_swallowed
              (sample_world sample_key (Responds [5200] 200 (body_with_text (lit "x = 1"))))
              (lit "hf_key") eq_refl)
    as (Hc & _ & Hh); [discriminate|].
  destruct (Hh Hstall) as (Hco & Hr & Hs & Hho).
  split.
  - destruct (Hc (lit "prompt") 100) as [Ht _].
    rewrite Ht by reflexivity. reflexivity.
  - split; [apply Hco|]. split; [apply Hr|].
    split; [apply Hs; right; vm_compute; discriminate|].
    apply Hho. vm_compute. discriminate.
Defined.

(** C6, as stated, fails: the timer counts idle time, not the time of the
    call.  A call that takes 9000 ms with the socket never idle for more
    than 3000 ms gets its text and no time-out; and when the connection
    closes with the response begun and not ended, no listener ever runs:
    the call stays pending, with no time-out error and no answer of the
    handler. *)
Lemma slow_exchange_is_not_timed_out :
  let slow := sample_world sample_key
                (Responds [3000; 3000; 3000] 200 (body_with_text (lit "x = 1"))) in
  let cut := sample_world sample_key (Cut [100]) in
  5000 < elapsed [3000; 3000; 3000]
  /\ fst (callHuggingFaceAPI (lit "prompt") 100 slow) = Returned (VString (lit "x = 1"))
  /\ fst (callHuggingFaceAPI (lit "prompt") 100 slow) <> Thrown timed_out
  /\ fst (callHuggingFaceAPI (lit "prompt") 100 cut) = Pending
  /\ fst (onHover (at_position 0 2) cut) = Pending
  /\ fst (onHover (at_position 0 2) cut) <> Returned None.
Proof.
  cbv zeta. split; [vm_compute; reflexivity|].
  split; [reflexivity|]. split; [vm_compute; discriminate|].
  split; [reflexivity|]. split; [vm_compute; reflexivity|].
  vm_compute. discriminate.
Qed.

(** ** Positions outside the document *)

(** C3. A line index past the last line is not rejected by two of the
    three handlers: signature help throws a [TypeError] to its caller, and
    completion goes on to the inference call, with "undefined" as the
    current line; hover alone answers null without a call. *)
Theorem out_of_bounds_line_not_rejected (w : world) (p : TextDocumentPositionParams)
    (text : jsstring) :
  documents w (uri p) = Some text ->
  len (split text LF) <= line (position p) ->
  ~ key_absent w ->
  onSignatureHelp p w = (Thrown TypeError, [])
  /\ (exists context,
        snd (onCompletion p w)
        = snd (callHuggingFaceAPI (completion_prompt context None) 150 w)
        /\ ((forall rq, refused (network w rq) = false) ->
            exists rq, snd (onCompletion p w) = [rq]
                       /\ inputs rq = completion_prompt context None))
  /\ onHover p w = (Returned None, []).
Proof.
  intros Hdoc Hline Hkey. split; [|split].
  - rewrite onSignatureHelp_cases, Hdoc.
    rewrite at_out_of_range by (right; exact Hline). reflexivity.
  - rewrite onCompletion_cases, Hdoc. cbv zeta.
    rewrite getAICompletion_cases.
    rewrite at_out_of_range by (right; exact Hline).
    exists (join (slice (split text LF) (Z.max 0 (line (position p) - 5))
                    (line (position p) + 1)) [LF]).
    split.
    + destruct (callHuggingFaceAPI _ 150 w) as [[v|e|] sent]; [destruct v| |];
        reflexivity.
    + intros Hacc.
      match goal with |- context [callHuggingFaceAPI ?pr ?n w] =>
        destruct (callHuggingFaceAPI_key_present w pr n Hkey) as (key & _ & ->) end.
      cbv zeta. rewrite Hacc.
      match goal with |- context [settle ?u] => destruct (settle u) as [[]| |] end;
        cbn [snd]; eexists; (split; [reflexivity|]); reflexivity.
  - rewrite onHover_cases, Hdoc. cbv zeta.
    destruct (Z.geb_spec (line (position p)) (len (split text LF))); [reflexivity|lia].
Qed.

Lemma out_of_bounds_line_not_rejected_witness :
  let w := sample_world sample_key (Responds [120] 200 (body_with_text (lit "x = 1"))) in
  len (split sample_text LF) <= 2
  /\ onSignatureHelp (at_position 2 0) w = (Thrown TypeError, [])
  /\ (exists rq context,
        snd (onCompletion (at_position 2 0) w) = [rq]
        /\ inputs rq = completion_prompt context None)
  /\ onHover (at_position 2 0) w = (Returned None, []).
Proof.
  cbv zeta. split; [vm_compute; discriminate|].
  destruct (out_of_bounds_line_not_rejected
              (sample_world sample_key (Responds [120] 200 (body_with_text (lit "x = 1"))))
              (at_position 2 0) sample_text)
    as (Hs & (context & _ & Hc) & Hh).
  - reflexivity.
  - vm_compute. discriminate.
  - intros [H|H]; discriminate H.
  - split; [exact Hs|]. split; [|exact Hh].
    destruct Hc as (rq & Hrq & Hin); [intros rq; reflexivity|].
    exists rq, context. split; assumption.
Defined.

(** A character offset past the end of the line is not rejected by
    signature help either: [substring] clamps it and the call is made. *)
Lemma beyond_line_end_not_rejected :
  let w := sample_world sample_key (Responds [120] 200 (body_with_text (lit "foo(a, b)"))) in
  len (lit "foo(a, b") < 100
  /\ List.length (snd (onSignatureHelp (at_position 1 100) w)) = 1%nat
  /\ List.length (snd (onCompletion (at_position 1 100) w)) = 1%nat
  /\ onHover (at_position 1 100) w = (Returned None, []).
Proof.
  cbv zeta. split; [vm_compute; reflexivity|].
  repeat split; vm_compute; reflexivity.
Qed.

(** ** Hover on an empty reply *)

Lemma ident_class_range (c : code_unit) :
  ident_class c = true -> (46 <= c <= 122)%N.
Proof.
  unfold ident_class, is_word, is_digit, DOT, UNDERSCORE.
  rewrite !orb_true_iff, !andb_true_iff, !N.leb_le, !N.eqb_eq. lia.
Qed.

Lemma is_space_range (c : code_unit) :
  is_space c = true -> (c <= 32 \/ 160 <= c)%N.
Proof.
  unfold is_space.
  rewrite !orb_true_iff, !andb_true_iff, !N.leb_le, !N.eqb_eq. lia.
Qed.

Lemma ident_class_not_space (c : code_unit) :
  ident_class c = true -> is_space c = false.
Proof.
  intros Hi. apply ident_class_range in Hi.
  destruct (is_space c) eqn:Es; [|reflexivity].
  apply is_space_range in Es. lia.
Qed.

Lemma trimStart_no_space (s : jsstring) :
  Forall (fun c => is_space c = false) s -> trimStart s = s.
Proof.
  intros H. destruct H as [|c t Hc _]; [reflexivity|].
  cbn [trimStart]. rewrite Hc. reflexivity.
Qed.

Lemma trim_no_space (s : jsstring) :
  Forall (fun c => is_space c = false) s -> trim s = s.
Proof.
  intros H. unfold trim, trimEnd.
  rewrite (trimStart_no_space s H).
  rewrite trimStart_no_space by (apply Forall_rev; exact H).
  apply rev_involutive.
Qed.

Lemma word_not_blank (l : jsstring) (r : range) (character : Z) :
  getWordRangeAtPosition l character = Some r ->
  let word := substring l (start r) (end_ r) in
  0 <= character < len l /\ trim word = word /\ word <> [].
Proof.
  intros Hr word.
  destruct (word_range_spec l character) as [Hnone Hsome].
  destruct (ident_at l character) eqn:Eid.
  - destruct (Hsome eq_refl) as (r' & Hr' & Hs & He & Hall & _).
    rewrite Hr in Hr'. injection Hr' as <-.
    split; [lia|]. split.
    + apply trim_no_space. apply Forall_forall. intros c Hc.
      apply substring_at in Hc; [|lia|lia].
      destruct Hc as (i & Hi & Hat).
      apply ident_class_not_space.
      specialize (Hall i Hi). unfold ident_at in Hall. rewrite Hat in Hall.
      exact Hall.
    + intros Hw.
      assert (Hl : len word = end_ r - start r)
        by (apply substring_length; lia).
      rewrite Hw in Hl. unfold len in Hl. cbn [List.length] in Hl. lia.
  - rewrite Hnone in Hr by reflexivity. discriminate.
Qed.

(** C4 (amended). When the inference call of a hover request completes
    with the empty string (or with blank text), the handler does not
    answer null: it answers a markdown hover whose content is the fixed
    sentence "No information available for" followed by the hovered word
    in quotes. *)
Theorem hover_empty_reply_fallback (w : world) (p : TextDocumentPositionParams)
    (l : jsstring) (r : range) (reply : jsstring) (sent : list request) :
  cursor_line w p = Some l ->
  getWordRangeAtPosition l (character (position p)) = Some r ->
  callHuggingFaceAPI (hover_prompt (substring l (start r) (end_ r)) l) 100 w
    = (Returned (VString reply), sent) ->
  trim reply = [] ->
  onHover p w =
  (Returned (Some {| contents_kind := lit "markdown";
                     contents_value :=
                       no_information (substring l (start r) (end_ r)) |}),
   sent).
Proof.
  intros Hline Hr Hcall Hblank.
  rewrite onHover_cases. unfold cursor_line in Hline.
  destruct (documents w (uri p)) as [text|]; [|discriminate].
  cbv zeta. pose proof (at_Some_bounds _ _ _ Hline) as Hb.
  destruct (Z.geb_spec (line (position p)) (len (split text LF))); [lia|].
  rewrite Hline.
  destruct (word_not_blank l r _ Hr) as (Hc & Htrim & Hne).
  destruct (Z.geb_spec (character (position p)) (len l)); [lia|].
  rewrite Hr, Htrim.
  destruct (substring l (start r) (end_ r)) as [|c t] eqn:Ew; [congruence|].
  cbn [orb]. unfold len at 1. cbn [List.length Z.eqb Z.of_nat].
  rewrite Hcall, Hblank. reflexivity.
Qed.

Lemma hover_empty_reply_fallback_witness :
  let w := sample_world sample_key (Responds [120] 200 (body_with_text (lit "  "))) in
  trim (lit "  ") = []
  /\ exists sent,
       onHover (at_position 0 2) w =
       (Returned (Some {| contents_kind := lit "markdown";
                          contents_value := lit "No information available for 'print'" |}),
        sent).
Proof.
  cbv zeta. split; [reflexivity|].
  eexists.
  apply (hover_empty_reply_fallback
           (sample_world sample_key (Responds [120] 200 (body_with_text (lit "  "))))
           (at_position 0 2) (lit "print(x)") {| start := 0; end_ := 5 |} (lit "  ")).
  - reflexivity.
  - reflexivity.
  - reflexivity.
  - reflexivity.
Defined.

(** C4, as stated, fails: on an empty reply the hover is there, with the
    fallback sentence as its content. *)
Lemma hover_empty_reply_is_not_null :
  let w := sample_world sample_key (Responds [120] 503 Unparsable) in
  fst (callHuggingFaceAPI (hover_prompt (lit "print") (lit "print(x)")) 100 w)
    = Returned (VString [])
  /\ fst (onHover (at_position 0 2) w)
     = Returned (Some {| contents_kind := lit "markdown";
                         contents_value := lit "No information available for 'print'" |})
  /\ fst (onHover (at_position 0 2) w) <> Returned None.
Proof.
  cbv zeta. split; [reflexivity|]. split; [vm_compute; reflexivity|].
  vm_compute. discriminate.
Qed.

(** ** The completion parser *)

Lemma skip_digits_split (t : jsstring) :
  exists ds, forallb is_digit ds = true /\ t = ds ++ skip_digits t.
Proof.
  induction t as [|c t IH]; [exists []; split; reflexivity|].
  cbn [skip_digits]. destruct (is_digit c) eqn:Ec.
  - destruct IH as (ds & Hds & Ht). exists (c :: ds). split.
    + cbn [forallb]. rewrite Ec, Hds. reflexivity.
    + cbn [app]. f_equal. exact Ht.
  - exists []. split; reflexivity.
Qed.

Lemma digits_then_dot_app (ds : jsstring) :
  forallb is_digit ds = true -> digits_then_dot (ds ++ [DOT]) = true.
Proof.
  induction ds as [|c t IH]; intros H; [reflexivity|].
  cbn [forallb] in H. apply andb_true_iff in H. destruct H as [Hc Ht].
  specialize (IH Ht). cbn [app digits_then_dot].
  destruct (t ++ [DOT]) eqn:E.
  - destruct t; discriminate.
  - rewrite Hc, IH. reflexivity.
Qed.

Lemma match_numbering_sep (s r : jsstring) :
  match_numbering s = Some r ->
  exists sep, is_numbering sep = true /\ s = sep ++ r.
Proof.
  unfold match_numbering. destruct s as [|c t]; [discriminate|].
  destruct (is_digit c) eqn:Ec; [|discriminate].
  destruct (skip_digits_split t) as (ds & Hds & Ht).
  destruct (skip_digits t) as [|d r'] eqn:Es; [discriminate|].
  destruct (N.eqb_spec d DOT) as [->|]; [|discriminate].
  intros H. injection H as <-.
  exists (c :: ds ++ [DOT]). split.
  - cbn [is_numbering]. rewrite Ec, digits_then_dot_app by exact Hds. reflexivity.
  - cbn [app]. f_equal. rewrite <- app_assoc. exact Ht.
Qed.

Lemma skip_digits_app (x y : jsstring) (d : code_unit) (r : jsstring) :
  skip_digits x = d :: r -> is_digit d = false ->
  skip_digits (x ++ y) = d :: r ++ y.
Proof.
  induction x as [|c t IH]; [discriminate|].
  cbn [skip_digits app]. destruct (is_digit c) eqn:Ec.
  - apply IH.
  - intros H _. injection H as <- <-. reflexivity.
Qed.

Lemma match_numbering_app (x y r : jsstring) :
  match_numbering x = Some r -> match_numbering (x ++ y) = Some (r ++ y).
Proof.
  unfold match_numbering. destruct x as [|c t]; [discriminate|].
  cbn [app]. destruct (is_digit c); [|discriminate].
  destruct (skip_digits t) as [|d r'] eqn:Es; [discriminate|].
  destruct (N.eqb_spec d DOT) as [->|]; [|discriminate].
  intros H. injection H as <-.
  rewrite (skip_digits_app t y DOT r' Es) by reflexivity.
  reflexivity.
Qed.

Lemma clean_nil (rest : jsstring) : clean [] rest.
Proof.
  intros v u E Hu. symmetry in E. apply app_eq_nil in E. destruct E. contradiction.
Qed.

Lemma clean_snoc (piece : jsstring) (c : code_unit) (t : jsstring) :
  clean piece (c :: t) -> match_numbering (c :: t) = None ->
  clean (piece ++ [c]) t.
Proof.
  intros Hc Hm v u E Hu.
  destruct (exists_last Hu) as (u' & a & ->).
  rewrite app_assoc in E. apply app_inj_tail in E. destruct E as [E <-].
  rewrite <- app_assoc. cbn [app].
  destruct u' as [|x u'']; [exact Hm|].
  apply (Hc v (x :: u'') E). discriminate.
Qed.

Lemma digits_then_dot_skip : forall (t rest : jsstring),
  digits_then_dot t = true -> skip_digits (t ++ rest) = DOT :: rest.
Proof.
  induction t as [|c t IH]; intros rest H; [discriminate|].
  destruct t as [|c' t'].
  - cbn [digits_then_dot] in H. apply N.eqb_eq in H. subst c. reflexivity.
  - change (digits_then_dot (c :: c' :: t'))
      with (is_digit c && digits_then_dot (c' :: t')) in H.
    apply andb_true_iff in H. destruct H as [Hc Ht].
    change ((c :: c' :: t') ++ rest) with (c :: (c' :: t') ++ rest).
    cbn [skip_digits]. rewrite Hc. apply (IH rest Ht).
Qed.

Lemma is_numbering_match (sep rest : jsstring) :
  is_numbering sep = true -> match_numbering (sep ++ rest) = Some rest.
Proof.
  destruct sep as [|c t]; [discriminate|]. cbn [is_numbering].
  intros H. apply andb_true_iff in H. destruct H as [Hc Ht].
  cbn [app]. unfold match_numbering.
  rewrite Hc, (digits_then_dot_skip t rest Ht), N.eqb_refl. reflexivity.
Qed.

Lemma digits_then_dot_split : forall (t : jsstring),
  digits_then_dot t = true ->
  exists ds, t = ds ++ [DOT] /\ forallb is_digit ds = true.
Proof.
  induction t as [|c t IH]; intros H; [discriminate|].
  destruct t as [|c' t'].
  - cbn [digits_then_dot] in H. apply N.eqb_eq in H. subst c.
    exists []. split; reflexivity.
  - change (digits_then_dot (c :: c' :: t'))
      with (is_digit c && digits_then_dot (c' :: t')) in H.
    apply andb_true_iff in H. destruct H as [Hc Ht].
    destruct (IH Ht) as (ds & E & Hds). exists (c :: ds). split.
    + cbn [app]. rewrite E. reflexivity.
    + cbn [forallb]. rewrite Hc, Hds. reflexivity.
Qed.

Lemma is_numbering_split (sep : jsstring) :
  is_numbering sep = true ->
  exists ds, sep = ds ++ [DOT] /\ forallb is_digit ds = true.
Proof.
  destruct sep as [|c t]; [discriminate|]. cbn [is_numbering].
  intros H. apply andb_true_iff in H. destruct H as [Hc Ht].
  destruct (digits_then_dot_split t Ht) as (ds & -> & Hds).
  exists (c :: ds). split; [reflexivity|].
  cbn [forallb]. rewrite Hc, Hds. reflexivity.
Qed.

Lemma is_numbering_cons (c : code_unit) (sep : jsstring) :
  is_digit c = true -> is_numbering sep = true -> is_numbering (c :: sep) = true.
Proof.
  intros Hc Hsep. cbn [is_numbering]. rewrite Hc. cbn [andb].
  destruct sep as [|c0 t0]; [discriminate|].
  cbn [is_numbering] in Hsep. apply andb_true_iff in Hsep.
  destruct Hsep as [Hc0 Ht0].
  destruct t0 as [|c1 t1]; [discriminate|].
  change (digits_then_dot (c0 :: c1 :: t1))
    with (is_digit c0 && digits_then_dot (c1 :: t1)).
  rewrite Hc0, Ht0. reflexivity.
Qed.

Lemma ends_with_digit_app (v u : jsstring) :
  u <> [] -> forallb is_digit u = true -> ends_with_digit (v ++ u) = true.
Proof.
  intros Hu Hd. destruct (exists_last Hu) as (u' & a & ->).
  unfold ends_with_digit. rewrite app_assoc, rev_app_distr. cbn [rev app].
  rewrite forallb_app in Hd. apply andb_true_iff in Hd. destruct Hd as [_ Ha].
  cbn [forallb] in Ha. rewrite andb_true_r in Ha. exact Ha.
Qed.

Lemma clean_free (piece rest : jsstring) :
  clean piece rest -> free_of_numbering piece.
Proof.
  intros Hc pre sep post E.
  destruct (is_numbering sep) eqn:Hsep; [|reflexivity].
  assert (Hm : match_numbering ((sep ++ post) ++ rest) = Some (post ++ rest))
    by (rewrite <- app_assoc; apply is_numbering_match; exact Hsep).
  rewrite (Hc pre (sep ++ post) E) in Hm; [discriminate|].
  destruct sep; [discriminate Hsep|discriminate].
Qed.

Lemma clean_no_digit (piece sep rest : jsstring) :
  clean piece (sep ++ rest) -> is_numbering sep = true ->
  ends_with_digit piece = false.
Proof.
  intros Hc Hsep. unfold ends_with_digit.
  destruct (rev piece) as [|c q] eqn:Er; [reflexivity|].
  destruct (is_digit c) eqn:Ec; [|reflexivity].
  assert (Ep : piece = rev q ++ [c])
    by (rewrite <- (rev_involutive piece), Er; reflexivity).
  assert (Hm : match_numbering ([c] ++ sep ++ rest) = Some rest)
    by (apply (is_numbering_match (c :: sep) rest), is_numbering_cons; assumption).
  rewrite (Hc (rev q) [c] Ep) in Hm; discriminate.
Qed.

(** No match starts inside a piece that holds no numbering and does not
    end with a digit, whatever follows it. *)
Lemma free_no_match (p rest : jsstring) :
  free_of_numbering p -> ends_with_digit p = false \/ rest = [] ->
  forall v u, p = v ++ u -> u <> [] -> match_numbering (u ++ rest) = None.
Proof.
  intros Hfree Hend v u E Hu.
  destruct (match_numbering (u ++ rest)) as [r|] eqn:Em; [|reflexivity].
  exfalso.
  destruct (match_numbering_sep _ _ Em) as (sep & Hsep & Es).
  apply app_eq_app in Es. destruct Es as (l & [(Eu & _)|(Esep & Erest)]).
  - rewrite (Hfree v sep l) in Hsep; [discriminate|]. rewrite E, Eu. reflexivity.
  - destruct l as [|a l'].
    + rewrite app_nil_r in Esep. subst sep.
      rewrite (Hfree v u []) in Hsep; [discriminate|].
      rewrite app_nil_r. exact E.
    + destruct Hend as [Hend| ->]; [|discriminate Erest].
      destruct (is_numbering_split sep Hsep) as (ds & Eds & Hds).
      assert (Hl : a :: l' <> []) by discriminate.
      destruct (exists_last Hl) as (l0 & b & El). rewrite El in Esep.
      rewrite Esep, app_assoc in Eds. apply app_inj_tail in Eds.
      destruct Eds as [Eds _]. rewrite <- Eds, forallb_app in Hds.
      apply andb_true_iff in Hds. destruct Hds as [Hdu _].
      rewrite E, (ends_with_digit_app v u Hu Hdu) in Hend. discriminate.
Qed.

Lemma is_numbering_length (sep : jsstring) :
  is_numbering sep = true -> (0 < List.length sep)%nat.
Proof. destruct sep; [discriminate|cbn; lia]. Qed.

Lemma split_loop_spec : forall (fuel : nat) (piece_rev s : jsstring),
  (List.length s <= fuel)%nat ->
  clean (rev piece_rev) s ->
  exists seps,
    List.length (split_loop fuel piece_rev s) = S (List.length seps)
    /\ forallb is_numbering seps = true
    /\ interleave (split_loop fuel piece_rev s) seps = rev piece_rev ++ s
    /\ well_cut (split_loop fuel piece_rev s) seps.
Proof.
  induction fuel as [|f IH]; intros piece_rev s Hlen Hclean.
  - destruct s as [|c t]; [|cbn in Hlen; lia].
    exists []. cbn [split_loop interleave List.length forallb well_cut].
    repeat split; [rewrite app_nil_r; reflexivity|].
    eapply clean_free; eauto.
  - destruct s as [|c t].
    + exists []. cbn [split_loop interleave List.length forallb well_cut].
      repeat split; [rewrite app_nil_r; reflexivity|].
      eapply clean_free; eauto.
    + cbn [split_loop].
      destruct (match_numbering (c :: t)) as [r|] eqn:Em.
      * destruct (match_numbering_sep _ _ Em) as (sep & Hsep & Es).
        assert (Hr : (List.length r <= f)%nat).
        { apply is_numbering_length in Hsep.
          assert (El : List.length (c :: t) = List.length (sep ++ r)) by (rewrite Es; reflexivity).
          rewrite length_app in El. lia. }
        destruct (IH [] r Hr (clean_nil r)) as (seps & Hl & Hs & Hi & Hf).
        exists (sep :: seps). cbn [List.length forallb interleave well_cut].
        rewrite Hl, Hsep, Hs, Hi, Es. cbn [rev app].
        split; [reflexivity|]. split; [reflexivity|]. split; [reflexivity|].
        split; [eapply clean_free; eauto|].
        split; [|split; [reflexivity|exact Hf]].
        rewrite Es in Hclean. eapply clean_no_digit; eauto.
      * assert (Ht : (List.length t <= f)%nat) by (cbn in Hlen; lia).
        destruct (IH (c :: piece_rev) t Ht) as (seps & Hl & Hs & Hi & Hf).
        { cbn [rev]. apply clean_snoc; assumption. }
        exists seps. rewrite Hl, Hs, Hi. cbn [rev]. rewrite <- app_assoc.
        repeat split. exact Hf.
Qed.

Lemma split_numbering_spec (s : jsstring) :
  exists seps,
    List.length (split_numbering s) = S (List.length seps)
    /\ forallb is_numbering seps = true
    /\ interleave (split_numbering s) seps = s
    /\ well_cut (split_numbering s) seps.
Proof.
  unfold split_numbering.
  destruct (split_loop_spec (List.length s) [] s (le_n _) (clean_nil s))
    as (seps & H). exists seps. exact H.
Qed.

(** The scan walks through a piece where no match starts. *)
Lemma split_loop_walk : forall (p piece_rev rest : jsstring) (fuel : nat),
  (forall v u, p = v ++ u -> u <> [] -> match_numbering (u ++ rest) = None) ->
  (List.length (p ++ rest) <= fuel)%nat ->
  split_loop fuel piece_rev (p ++ rest)
  = split_loop (fuel - List.length p) (rev p ++ piece_rev) rest.
Proof.
  induction p as [|c p IH]; intros piece_rev rest fuel Hno Hlen.
  - cbn [app List.length rev]. rewrite Nat.sub_0_r. reflexivity.
  - destruct fuel as [|f]; [cbn in Hlen; lia|].
    assert (H0 : match_numbering ((c :: p) ++ rest) = None)
      by (apply (Hno [] (c :: p) eq_refl); discriminate).
    cbn [app] in H0 |- *. cbn [split_loop]. rewrite H0, IH.
    + cbn [List.length rev]. rewrite <- app_assoc. reflexivity.
    + intros v u E Hu. apply (Hno (c :: v) u); [rewrite E; reflexivity|exact Hu].
    + cbn in Hlen. lia.
Qed.

Lemma split_loop_unique : forall (pieces seps : list jsstring) (fuel : nat),
  well_cut pieces seps ->
  (List.length (interleave pieces seps) <= fuel)%nat ->
  split_loop fuel [] (interleave pieces seps) = pieces.
Proof.
  induction pieces as [|p ps IH]; intros seps fuel Hcut Hlen; [destruct Hcut|].
  cbn [well_cut] in Hcut. destruct Hcut as [Hfree Hcut].
  destruct seps as [|sep seps'].
  - subst ps. cbn [interleave] in *.
    rewrite <- (app_nil_r p) at 1.
    rewrite split_loop_walk.
    + rewrite app_nil_r. destruct (fuel - _)%nat; cbn [split_loop];
        rewrite rev_involutive; reflexivity.
    + apply free_no_match; [exact Hfree|right; reflexivity].
    + rewrite app_nil_r. exact Hlen.
  - destruct Hcut as (Hend & Hsep & Hcut). cbn [interleave] in *.
    rewrite split_loop_walk.
    + pose proof (is_numbering_length sep Hsep) as Hpos.
      rewrite !length_app in Hlen.
      destruct (fuel - List.length p)%nat as [|f] eqn:Ef; [lia|].
      destruct sep as [|c t]; [discriminate Hsep|].
      change ((c :: t) ++ interleave ps seps') with (c :: t ++ interleave ps seps').
      cbn [split_loop].
      change (c :: t ++ interleave ps seps') with ((c :: t) ++ interleave ps seps').
      rewrite (is_numbering_match _ _ Hsep), app_nil_r, rev_involutive.
      f_equal. apply IH; [exact Hcut|]. cbn [List.length] in Hlen. lia.
    + apply free_no_match; [exact Hfree|left; exact Hend].
    + exact Hlen.
Qed.

Lemma split_numbering_unique (s : jsstring) (pieces seps : list jsstring) :
  interleave pieces seps = s -> well_cut pieces seps ->
  pieces = split_numbering s.
Proof.
  intros <- Hcut. unfold split_numbering. symmetry.
  apply split_loop_unique; [exact Hcut|apply le_n].
Qed.

Lemma usable_trim (s : jsstring) : usable s = true <-> trim s <> [].
Proof.
  unfold usable, len. destruct (trim s); cbn; split; intros H;
    try discriminate; try reflexivity; congruence.
Qed.

Lemma push_suggestions_numbered : forall (segments : list jsstring) (k : nat)
    (acc : list CompletionItem),
  forallb usable segments = true ->
  push_suggestions segments k acc = acc ++ numbered segments k.
Proof.
  induction segments as [|s r IH]; intros k acc H; cbn [push_suggestions numbered].
  - rewrite app_nil_r. reflexivity.
  - cbn [forallb] in H. apply andb_true_iff in H. destruct H as [Hs Hr].
    apply usable_trim in Hs.
    destruct (trim s) as [|c t] eqn:Et; [congruence|].
    rewrite IH by exact Hr. rewrite <- app_assoc. reflexivity.
Qed.

Lemma forallb_filter_id {A} (f : A -> bool) (l : list A) :
  forallb f (filter f l) = true.
Proof.
  induction l as [|x l IH]; [reflexivity|].
  cbn [filter]. destruct (f x) eqn:E; [|exact IH].
  cbn [forallb]. rewrite E, IH. reflexivity.
Qed.

Lemma nth_error_numbered : forall (segments : list jsstring) (k0 k : nat) (s : jsstring),
  nth_error segments k = Some s ->
  nth_error (numbered segments k0) k = Some (text_item (trim s) (sort_key (k0 + k))).
Proof.
  induction segments as [|x r IH]; intros k0 k s H; [destruct k; discriminate|].
  destruct k as [|k]; cbn [nth_error numbered] in *.
  - injection H as <-. rewrite Nat.add_0_r. reflexivity.
  - rewrite (IH (S k0) k s H).
    replace (S k0 + k)%nat with (k0 + S k)%nat by lia. reflexivity.
Qed.

Lemma length_numbered : forall (segments : list jsstring) (k : nat),
  List.length (numbered segments k) = List.length segments.
Proof.
  induction segments as [|x r IH]; intros k; cbn; [reflexivity|].
  rewrite IH. reflexivity.
Qed.

(** Sort keys *)

Lemma length_digits_of_uint (d : Decimal.uint) :
  List.length (digits_of_uint d) = Decimal.nb_digits d.
Proof.
  induction d; cbn [digits_of_uint Decimal.nb_digits List.length]; congruence.
Qed.

Lemma length_digits_revapp : forall (d d' : Decimal.uint),
  List.length (digits_of_uint (Decimal.revapp d d'))
  = (Decimal.nb_digits d + Decimal.nb_digits d')%nat.
Proof.
  induction d as [|d IH|d IH|d IH|d IH|d IH|d IH|d IH|d IH|d IH|d IH];
    intros d'; cbn [Decimal.revapp Decimal.nb_digits];
    [apply length_digits_of_uint|..];
    rewrite IH; cbn [Decimal.nb_digits]; lia.
Qed.

Lemma all_short_spec : forall (n : nat) (u : Decimal.uint),
  all_short n u = true ->
  forall k, (k < n)%nat -> (Decimal.nb_digits (Nat.to_little_uint k u) <= 5)%nat.
Proof.
  induction n as [|n IH]; intros u H k Hk; [lia|].
  cbn [all_short] in H. apply andb_true_iff in H. destruct H as [Hu Hn].
  destruct k as [|k]; cbn [Nat.to_little_uint].
  - apply Nat.leb_le. exact Hu.
  - apply (IH _ Hn). lia.
Qed.

Lemma sort_key_length (k : nat) :
  Z.of_nat k < 100000 -> List.length (sort_key k) = 5%nat.
Proof.
  intros Hk. unfold sort_key, padStart0, String_of_index, Nat.to_uint, Decimal.rev.
  pose proof (length_digits_revapp (Nat.to_little_uint k Decimal.zero) Decimal.Nil) as Hl.
  unfold jsstring, code_unit in *.
  rewrite length_app, repeat_length, Hl.
  assert (H : all_short (Z.to_nat 100000) Decimal.zero = true)
    by (vm_compute; reflexivity).
  assert (Hk' : (k < Z.to_nat 100000)%nat) by lia.
  pose proof (all_short_spec _ _ H k Hk') as Hd.
  cbn [Decimal.nb_digits]. lia.
Qed.

(** C7 (amended). The completion parser cuts the reply at every run of
    digits followed by a dot, read from the left: the pieces, put back
    around separators of that shape, give the reply, no piece holds such
    a run, and no piece that a separator follows ends with a digit; the
    pieces are the only cut of the reply of that kind.  It keeps the
    pieces that are not blank, in order, each trimmed, the k-th with the
    decimal index k padded with zeros to five digits as its sort key.
    When no piece is kept and the reply is not blank, it gives one
    candidate, the trimmed reply, with sort key "00000"; when the reply is
    blank it gives none.  The two examples of the specification follow. *)
Theorem parse_completions_spec (completionText : jsstring) :
  let pieces := split_numbering completionText in
  let segments := filter usable pieces in
  (exists seps,
      List.length pieces = S (List.length seps)
      /\ forallb is_numbering seps = true
      /\ interleave pieces seps = completionText
      /\ well_cut pieces seps)
  /\ (forall pieces' seps',
        interleave pieces' seps' = completionText -> well_cut pieces' seps' ->
        pieces' = pieces)
  /\ (forall s, In s segments <-> In s pieces /\ trim s <> [])
  /\ (segments <> [] -> parse_completions completionText = numbered segments 0)
  /\ (segments = [] -> trim completionText <> [] ->
      parse_completions completionText
      = [text_item (trim completionText) (lit "00000")])
  /\ (segments = [] -> trim completionText = [] ->
      parse_completions completionText = [])
  /\ (forall k s, nth_error segments k = Some s ->
      nth_error (numbered segments 0) k = Some (text_item (trim s) (sort_key k))
      /\ (Z.of_nat k < 100000 -> List.length (sort_key k) = 5%nat))
  /\ sort_key 0 = lit "00000"
  /\ parse_completions (lit "1. x = 1
2. y = 2")
     = [text_item (lit "x = 1") (lit "00000"); text_item (lit "y = 2") (lit "00001")]
  /\ parse_completions (lit "return x + y")
     = [text_item (lit "return x + y") (lit "00000")].
Proof.
  intros pieces segments.
  destruct (split_numbering_spec completionText) as (seps & Hl & Hs & Hi & Hf).
  split; [exists seps; repeat split; assumption|].
  split; [intros pieces' seps'; apply split_numbering_unique|].
  split.
  { intros s. unfold segments. rewrite filter_In, usable_trim. reflexivity. }
  assert (Hparse : parse_completions completionText =
                   if (len segments =? 0) && (0 <? len (trim completionText))
                   then [text_item (trim completionText) (lit "00000")]
                   else numbered segments 0).
  { unfold parse_completions. fold pieces. fold segments.
    destruct (_ && _); [reflexivity|].
    rewrite push_suggestions_numbered by apply forallb_filter_id. reflexivity. }
  split; [|split; [|split]].
  - intros Hne. rewrite Hparse. destruct segments as [|s r]; [congruence|].
    reflexivity.
  - intros -> Ht. rewrite Hparse. destruct (trim completionText); [congruence|].
    reflexivity.
  - intros -> Ht. rewrite Hparse, Ht. reflexivity.
  - split; [|split; [|split]]; try (vm_compute; reflexivity).
    intros k s Hk. split.
    + apply (nth_error_numbered segments 0 k s Hk).
    + apply sort_key_length.
Qed.

Lemma parse_completions_spec_witness :
  filter usable (split_numbering (lit "1.")) = []
  /\ trim (lit "1.") <> []
  /\ parse_completions (lit "1.") = [text_item (lit "1.") (lit "00000")].
Proof.
  split; [reflexivity|]. split; [vm_compute; discriminate|].
  destruct (parse_completions_spec (lit "1.")) as (_ & _ & _ & _ & H & _).
  apply H; [reflexivity | vm_compute; discriminate].
Defined.

(** C7, as stated, fails: a reply that is not empty but blank has no
    usable segment and gives no candidate at all. *)
Lemma blank_reply_gives_no_candidate :
  lit " " <> []
  /\ filter usable (split_numbering (lit " ")) = []
  /\ parse_completions (lit " ") = [].
Proof.
  split; [discriminate|]. split; reflexivity.
Qed.

Lemma getWordRangeAtPosition_maximal_witness :
  ident_at (lit "x = os.path.join(a)") 6 = true
  /\ exists r, getWordRangeAtPosition (lit "x = os.path.join(a)") 6 = Some r
       /\ start r = 4 /\ end_ r = 16.
Proof.
  split; [reflexivity|].
  destruct (getWordRangeAtPosition_maximal (lit "x = os.path.join(a)") 6)
    as (_ & _ & _ & H).
  destruct (H eq_refl) as (r & Hr & _).
  exists r. split; [exact Hr|].
  vm_compute in Hr. injection Hr as <-. split; reflexivity.
Defined.

(** * Further properties of the handlers *)

(** ** What goes on the wire *)

Lemma callHuggingFaceAPI_wire (w : world) (prompt : jsstring) (maxTokens : Z) :
  snd (callHuggingFaceAPI prompt maxTokens w) = wire w prompt maxTokens.
Proof.
  unfold callHuggingFaceAPI, wire.
  destruct (HUGGINGFACE_API_KEY w) as [[|c k]|]; try reflexivity.
  cbv zeta. destruct (network w _); reflexivity.
Qed.

Lemma getWordRangeAtPosition_past_end (l : jsstring) (character : Z) :
  character >= len l -> getWordRangeAtPosition l character = None.
Proof.
  intros H. apply (proj1 (word_range_spec l character)).
  apply ident_at_out_of_bounds. lia.
Qed.

Lemma onCompletion_sent (w : world) (p : TextDocumentPositionParams) :
  snd (onCompletion p w) = sent_for w (completion_request w p) 150.
Proof.
  rewrite onCompletion_cases. unfold completion_request, sent_for.
  destruct (documents w (uri p)) as [text|]; [|reflexivity].
  cbv zeta. rewrite getAICompletion_cases, <- callHuggingFaceAPI_wire.
  destruct (callHuggingFaceAPI _ 150 w) as [[v|e|] sent]; [destruct v| |]; reflexivity.
Qed.

Lemma onCompletionResolve_sent (w : world) (item : CompletionItem) :
  snd (onCompletionResolve item w) = wire w (resolve_prompt (label item)) 100.
Proof.
  rewrite onCompletionResolve_cases, <- callHuggingFaceAPI_wire.
  destruct (callHuggingFaceAPI _ 100 w) as [[v|e|] sent]; [destruct v| |]; reflexivity.
Qed.

Lemma onSignatureHelp_sent (w : world) (p : TextDocumentPositionParams) :
  snd (onSignatureHelp p w) = sent_for w (signature_request w p) 100.
Proof.
  rewrite onSignatureHelp_cases. unfold signature_request, cursor_line, sent_for.
  destruct (documents w (uri p)) as [text|]; [|reflexivity].
  destruct (at_ (split text LF) (line (position p))) as [currentLine|]; [|reflexivity].
  cbv zeta. destruct (_ =? -1); [reflexivity|].
  rewrite <- callHuggingFaceAPI_wire.
  destruct (callHuggingFaceAPI _ 100 w) as [[v|e|] sent]; [destruct v| |]; reflexivity.
Qed.

Lemma onHover_sent (w : world) (p : TextDocumentPositionParams) :
  snd (onHover p w) = sent_for w (hover_request w p) 100.
Proof.
  rewrite onHover_cases. unfold hover_request, cursor_line, sent_for.
  destruct (documents w (uri p)) as [text|]; [|reflexivity].
  cbv zeta.
  destruct (Z.geb_spec (line (position p)) (len (split text LF))) as [Hge|Hlt].
  { rewrite at_out_of_range by (right; exact Hge). reflexivity. }
  destruct (at_ (split text LF) (line (position p))) as [l|]; [|reflexivity].
  destruct (Z.geb_spec (character (position p)) (len l)) as [Hc|Hc].
  { rewrite getWordRangeAtPosition_past_end by lia. reflexivity. }
  destruct (getWordRangeAtPosition l (character (position p))) as [r|] eqn:Er;
    [|reflexivity].
  destruct (word_not_blank l r _ Er) as (_ & Htrim & Hne).
  rewrite Htrim.
  destruct (substring l (start r) (end_ r)) as [|c t] eqn:Ew; [congruence|].
  cbn [orb]. unfold len at 1. cbn [List.length Z.eqb Z.of_nat].
  rewrite <- callHuggingFaceAPI_wire.
  destruct (callHuggingFaceAPI _ 100 w) as [[v|e|] sent]; [destruct v| |]; reflexivity.
Qed.

Lemma wire_same (w w' : world) (prompt : jsstring) (n : Z) :
  same_inputs w w' -> wire w prompt n = wire w' prompt n.
Proof.
  intros (Hk & _ & Hr). unfold wire. rewrite <- Hk.
  destruct (HUGGINGFACE_API_KEY w) as [[|c k]|]; try reflexivity.
  cbv zeta. rewrite Hr. reflexivity.
Qed.

Lemma cursor_line_same (w w' : world) (p : TextDocumentPositionParams) :
  same_inputs w w' -> cursor_line w p = cursor_line w' p.
Proof. intros (_ & Hd & _). unfold cursor_line. rewrite Hd. reflexivity. Qed.

Lemma wire_one_request (w : world) (prompt : jsstring) (n : Z) :
  one_request w n (wire w prompt n).
Proof.
  unfold one_request, wire, carries.
  destruct (HUGGINGFACE_API_KEY w) as [[|c k]|];
    try (split; [cbn; lia|intros rq []]).
  cbv zeta. destruct (refused _); [split; [cbn; lia|intros rq []]|].
  split; [cbn; lia|]. intros rq [<-|[]]. split; [reflexivity|].
  exists (c :: k). split; [reflexivity|]. split; [discriminate|reflexivity].
Qed.

Lemma sent_for_one_request (w : world) (prompt : option jsstring) (n : Z) :
  one_request w n (sent_for w prompt n).
Proof.
  destruct prompt as [pr|]; [apply wire_one_request|].
  split; [cbn; lia|intros rq []].
Qed.

(** X1. What a handler sends does not depend on what the network answers:
    in two worlds with the same credential and the same documents, whose
    runtime refuses the same requests, each handler sends the same
    requests.  A handler sends one request at most, and the request it
    sends carries the credential as a bearer token and asks for 150 new
    tokens for completion, for 100 for the other handlers. *)
Theorem requests_sent (w w' : world) :
  same_inputs w w' ->
  (forall p, snd (onCompletion p w) = snd (onCompletion p w')
             /\ one_request w 150 (snd (onCompletion p w)))
  /\ (forall item,
        snd (onCompletionResolve item w) = snd (onCompletionResolve item w')
        /\ one_request w 100 (snd (onCompletionResolve item w)))
  /\ (forall p, snd (onSignatureHelp p w) = snd (onSignatureHelp p w')
                /\ one_request w 100 (snd (onSignatureHelp p w)))
  /\ (forall p, snd (onHover p w) = snd (onHover p w')
                /\ one_request w 100 (snd (onHover p w))).
Proof.
  intros Hsame. pose proof Hsame as (Hk & Hd & Hr).
  split; [|split; [|split]].
  - intros p. rewrite !onCompletion_sent. split; [|apply sent_for_one_request].
    unfold completion_request. rewrite <- Hd.
    destruct (documents w (uri p)); [|reflexivity].
    apply wire_same, Hsame.
  - intros item. rewrite !onCompletionResolve_sent.
    split; [apply wire_same, Hsame|apply wire_one_request].
  - intros p. rewrite !onSignatureHelp_sent. split; [|apply sent_for_one_request].
    unfold signature_request. rewrite <- (cursor_line_same w w' p Hsame).
    destruct (cursor_line w p); [|reflexivity]. cbv zeta.
    destruct (_ =? -1); [reflexivity|]. apply wire_same, Hsame.
  - intros p. rewrite !onHover_sent. split; [|apply sent_for_one_request].
    unfold hover_request. rewrite <- (cursor_line_same w w' p Hsame).
    destruct (cursor_line w p) as [l|]; [|reflexivity].
    destruct (getWordRangeAtPosition l _); [|reflexivity].
    apply wire_same, Hsame.
Qed.

Lemma requests_sent_witness :
  let w := sample_world sample_key (Responds [120] 200 (body_with_text (lit "x = 1"))) in
  let w' := sample_world sample_key (Fails [40] (SystemError (lit "ECONNRESET"))) in
  same_inputs w w'
  /\ snd (onCompletion (at_position 0 5) w) = snd (onCompletion (at_position 0 5) w')
  /\ snd (onHover (at_position 0 2) w) = snd (onHover (at_position 0 2) w')
  /\ (List.length (snd (onHover (at_position 0 2) w)) <= 1)%nat.
Proof.
  cbv zeta.
  assert (Hsame : same_inputs
            (sample_world sample_key (Responds [120] 200 (body_with_text (lit "x = 1"))))
            (sample_world sample_key (Fails [40] (SystemError (lit "ECONNRESET"))))).
  { split; [reflexivity|]. split; intros; reflexivity. }
  split; [exact Hsame|].
  destruct (requests_sent _ _ Hsame) as (Hc & _ & _ & Hh).
  split; [apply Hc|]. split; [apply Hh|]. apply (proj2 (Hh (at_position 0 2))).
Defined.

Lemma sent_for_key_absent (w : world) (prompt : option jsstring) (n : Z) :
  key_absent w -> sent_for w prompt n = [].
Proof.
  intros Hk. destruct prompt as [pr|]; [|reflexivity].
  cbn [sent_for]. unfold wire. destruct Hk as [-> | ->]; reflexivity.
Qed.

(** X2. Without the credential no handler sends anything, whatever the
    request. *)
Theorem no_credential_no_request (w : world) :
  key_absent w ->
  (forall p, snd (onCompletion p w) = [])
  /\ (forall item, snd (onCompletionResolve item w) = [])
  /\ (forall p, snd (onSignatureHelp p w) = [])
  /\ (forall p, snd (onHover p w) = []).
Proof.
  intros Hk. split; [|split; [|split]].
  - intros p. rewrite onCompletion_sent. apply sent_for_key_absent, Hk.
  - intros item. rewrite onCompletionResolve_sent.
    apply (sent_for_key_absent w (Some (resolve_prompt (label item))) 100 Hk).
  - intros p. rewrite onSignatureHelp_sent. apply sent_for_key_absent, Hk.
  - intros p. rewrite onHover_sent. apply sent_for_key_absent, Hk.
Qed.

Lemma no_credential_no_request_witness :
  let w := sample_world (Some []) (Responds [120] 200 (body_with_text (lit "x = 1"))) in
  key_absent w
  /\ snd (onCompletion (at_position 0 5) w) = []
  /\ snd (onCompletionResolve sample_item w) = []
  /\ snd (onSignatureHelp (at_position 1 8) w) = []
  /\ snd (onHover (at_position 0 2) w) = [].
Proof.
  cbv zeta.
  assert (Hk : key_absent (sample_world (Some [])
                 (Responds [120] 200 (body_with_text (lit "x = 1")))))
    by (right; reflexivity).
  split; [exact Hk|].
  destruct (no_credential_no_request _ Hk) as (Hc & Hr & Hs & Hh).
  split; [apply Hc|]. split; [apply Hr|]. split; [apply Hs|apply Hh].
Defined.

(** ** What the handlers never do *)


(** X3. No error of the inference call, and no request, makes completion
    or resolve throw, nor hover for any line index from 0 on.  When every
    call of the client settles, each of them answers; resolve hands back
    the item it was given with its label, kind, sort key and insertion
    text untouched. *)
Theorem handlers_always_answer (w : world) :
  (forall p e, fst (onCompletion p w) <> Thrown e)
  /\ (forall item e, fst (onCompletionResolve item w) <> Thrown e)
  /\ (forall p e, 0 <= line (position p) -> fst (onHover p w) <> Thrown e)
  /\ ((forall prompt n, fst (callHuggingFaceAPI prompt n w) <> Pending) ->
      (forall p, exists items, fst (onCompletion p w) = Returned items)
      /\ (forall item, exists item',
            fst (onCompletionResolve item w) = Returned item'
            /\ label item' = label item /\ kind item' = kind item
            /\ sortText item' = sortText item /\ insertText item' = insertText item)
      /\ (forall p, 0 <= line (position p) ->
            exists h, fst (onHover p w) = Returned h)).
Proof.
  split; [|split; [|split]].
  - intros p e. rewrite onCompletion_cases.
    destruct (documents w (uri p)) as [text|]; [|discriminate].
    cbv zeta. rewrite getAICompletion_cases.
    destruct (callHuggingFaceAPI _ 150 w) as [[v|e'|] sent]; [destruct v| |];
      discriminate.
  - intros item e. rewrite onCompletionResolve_cases.
    destruct (callHuggingFaceAPI _ 100 w) as [[v|e'|] sent]; [destruct v| |];
      discriminate.
  - intros p e Hline. rewrite onHover_cases.
    destruct (documents w (uri p)) as [text|]; [|discriminate].
    cbv zeta.
    destruct (Z.geb_spec (line (position p)) (len (split text LF))) as [|Hlt];
      [discriminate|].
    destruct (at_in_range (split text LF) (line (position p))) as [l ->]; [lia|].
    destruct (_ >=? _); [discriminate|].
    destruct (getWordRangeAtPosition l (character (position p))) as [r|];
      [|discriminate].
    destruct (_ || _); [discriminate|].
    destruct (callHuggingFaceAPI _ 100 w) as [[v|e'|] sent]; [destruct v| |];
      discriminate.
  - intros Hsettle.
    assert (Hcall : forall prompt n sent,
               callHuggingFaceAPI prompt n w <> (Pending, sent)).
    { intros prompt n sent E. apply (Hsettle prompt n). rewrite E. reflexivity. }
    split; [|split].
    + intros p. rewrite onCompletion_cases.
      destruct (documents w (uri p)) as [text|]; [|eexists; reflexivity].
      cbv zeta. rewrite getAICompletion_cases.
      match goal with |- context [callHuggingFaceAPI ?pr ?n w] =>
        pose proof (Hcall pr n) as Hp;
        destruct (callHuggingFaceAPI pr n w) as [[v|e|] sent] end;
        [destruct v| |exfalso; apply (Hp sent); reflexivity];
        eexists; reflexivity.
    + intros item. rewrite onCompletionResolve_cases.
      match goal with |- context [callHuggingFaceAPI ?pr ?n w] =>
        pose proof (Hcall pr n) as Hp;
        destruct (callHuggingFaceAPI pr n w) as [[v|e|] sent] end;
        [destruct v| |exfalso; apply (Hp sent); reflexivity];
        cbn [fst]; try solve [exists item; repeat split; reflexivity].
      destruct (apply_doc_fields item s) as (first & rest & _ & ->).
      eexists. split; [reflexivity|]. repeat split.
    + intros p Hline. rewrite onHover_cases.
      destruct (documents w (uri p)) as [text|]; [|eexists; reflexivity].
      cbv zeta.
      destruct (Z.geb_spec (line (position p)) (len (split text LF))) as [|Hlt];
        [eexists; reflexivity|].
      destruct (at_in_range (split text LF) (line (position p))) as [l ->]; [lia|].
      destruct (_ >=? _); [eexists; reflexivity|].
      destruct (getWordRangeAtPosition l (character (position p))) as [r|];
        [|eexists; reflexivity].
      destruct (_ || _); [eexists; reflexivity|].
      match goal with |- context [callHuggingFaceAPI ?pr ?n w] =>
        pose proof (Hcall pr n) as Hp;
        destruct (callHuggingFaceAPI pr n w) as [[v|e|] sent] end;
        [destruct v| |exfalso; apply (Hp sent); reflexivity];
        eexists; reflexivity.
Qed.

Lemma handlers_always_answer_witness :
  let w := sample_world sample_key (Fails [40] (SystemError (lit "ECONNRESET"))) in
  (forall prompt n, fst (callHuggingFaceAPI prompt n w) <> Pending)
  /\ 0 <= 0 /\ exists h, fst (onHover (at_position 0 2) w) = Returned h.
Proof.
  cbv zeta.
  assert (Hsettle : forall prompt n,
             fst (callHuggingFaceAPI prompt n
                    (sample_world sample_key (Fails [40] (SystemError (lit "ECONNRESET")))))
             <> Pending) by (intros prompt n; cbn; discriminate).
  split; [exact Hsettle|]. split; [lia|].
  destruct (handlers_always_answer
              (sample_world sample_key (Fails [40] (SystemError (lit "ECONNRESET")))))
    as (_ & _ & _ & H).
  destruct (H Hsettle) as (_ & _ & Hh).
  apply (Hh (at_position 0 2)). cbn. lia.
Defined.



(** X5. The client throws in four cases and no other: the credential is
    missing; the runtime refuses to build the request, and its error is
    thrown with nothing sent; the socket of the request sent stays idle
    for 5000 ms, which gives the time-out error; or the request sent emits
    an error before that, which is thrown as it is.  In particular no
    status and no body makes it throw. *)
Theorem client_throws_only (w : world) (prompt : jsstring) (maxTokens : Z)
    (e : error) :
  fst (callHuggingFaceAPI prompt maxTokens w) = Thrown e
  <->
  (key_absent w /\ e = key_missing
   /\ callHuggingFaceAPI prompt maxTokens w = (Thrown e, []))
  \/ (exists key, HUGGINGFACE_API_KEY w = Some key /\ key <> []
        /\ let rq := {| authorization := lit "Bearer " ++ key;
                        inputs := prompt;
                        max_new_tokens := maxTokens |} in
           (network w rq = Refused e
            /\ callHuggingFaceAPI prompt maxTokens w = (Thrown e, []))
           \/ (callHuggingFaceAPI prompt maxTokens w = (Thrown e, [rq])
               /\ ((stalls (network w rq) = true /\ e = timed_out)
                   \/ (exists gaps, network w rq = Fails gaps e
                                    /\ stalls (network w rq) = false)))).
Proof.
  split.
  - unfold callHuggingFaceAPI, key_absent.
    destruct (HUGGINGFACE_API_KEY w) as [[|c k]|]; cbn [fst].
    + intros H. injection H as <-. left.
      split; [right; reflexivity|]. split; reflexivity.
    + intros H. right. exists (c :: k). split; [reflexivity|].
      split; [discriminate|]. cbv zeta.
      destruct (network w _) as [e'|gaps statusCode data|gaps e'|gaps|];
        cbn [fst settle stalls] in *.
      * injection H as <-. left. split; reflexivity.
      * rewrite timer_fires_stalls in *.
        destruct (existsb _ gaps); [|discriminate].
        injection H as <-. right. split; [reflexivity|]. left. split; reflexivity.
      * rewrite timer_fires_stalls in *.
        destruct (existsb _ gaps) eqn:Eg.
        -- injection H as <-. right. split; [reflexivity|]. left. split; reflexivity.
        -- injection H as <-. right. split; [reflexivity|]. right.
           exists gaps. split; reflexivity.
      * rewrite timer_fires_stalls in *.
        destruct (existsb _ gaps); [|discriminate].
        injection H as <-. right. split; [reflexivity|]. left. split; reflexivity.
      * injection H as <-. right. split; [reflexivity|]. left. split; reflexivity.
    + intros H. injection H as <-. left.
      split; [left; reflexivity|]. split; reflexivity.
  - intros [(_ & _ & H)|(key & _ & _ & [(_ & H)|(H & _)])];
      rewrite H; reflexivity.
Qed.

Lemma client_throws_only_witness :
  let w := sample_world sample_key (Fails [40] (SystemError (lit "ECONNRESET"))) in
  fst (callHuggingFaceAPI (lit "prompt") 100 w) = Thrown (SystemError (lit "ECONNRESET"))
  /\ exists rq, snd (callHuggingFaceAPI (lit "prompt") 100 w) = [rq]
       /\ network w rq = Fails [40] (SystemError (lit "ECONNRESET")).
Proof.
  cbv zeta. split; [reflexivity|].
  destruct (proj1 (client_throws_only
              (sample_world sample_key (Fails [40] (SystemError (lit "ECONNRESET"))))
              (lit "prompt") 100 (SystemError (lit "ECONNRESET"))))
    as [([Hk|Hk] & _)|(key & Hkey & _ & [(Hr & _)|(Hc & _)])].
  - reflexivity.
  - discriminate Hk.
  - discriminate Hk.
  - discriminate Hr.
  - eexists. rewrite Hc. split; reflexivity.
Defined.

Lemma unusable_cases (w : world) :
  (forall prompt n, unusable (fst (callHuggingFaceAPI prompt n w)) = true) ->
  forall prompt n,
    match callHuggingFaceAPI prompt n w with
    | (Returned (VString _), _) => False
    | (Pending, _) => False
    | _ => True
    end.
Proof.
  intros H prompt n. specialize (H prompt n).
  destruct (callHuggingFaceAPI prompt n w) as [[v|e|] sent]; [destruct v| |];
    cbn in H; try exact I; discriminate.
Qed.

(** X6. A reply whose generated text is not a string (a number, say) is
    passed on by the client as it is, and each handler, failing to use it
    as a string, answers its empty result: the empty list, the item as it
    came, null.  The same holds when the call throws. *)
Theorem unusable_reply_gives_empty_results (w : world) :
  (forall prompt n, unusable (fst (callHuggingFaceAPI prompt n w)) = true) ->
  (forall p, fst (onCompletion p w) = Returned [])
  /\ (forall item, fst (onCompletionResolve item w) = Returned item)
  /\ (forall p, cursor_line w p <> None -> fst (onSignatureHelp p w) = Returned None)
  /\ (forall p, 0 <= line (position p) -> fst (onHover p w) = Returned None).
Proof.
  intros H. pose proof (unusable_cases w H) as Hc.
  split; [|split; [|split]].
  - intros p. rewrite onCompletion_cases.
    destruct (documents w (uri p)) as [text|]; [|reflexivity].
    cbv zeta. rewrite getAICompletion_cases.
    match goal with |- context [callHuggingFaceAPI ?pr ?n w] =>
      specialize (Hc pr n); destruct (callHuggingFaceAPI pr n w) as [[v|e|] sent] end;
      [destruct v| |]; try reflexivity; contradiction.
  - intros item. rewrite onCompletionResolve_cases.
    match goal with |- context [callHuggingFaceAPI ?pr ?n w] =>
      specialize (Hc pr n); destruct (callHuggingFaceAPI pr n w) as [[v|e|] sent] end;
      [destruct v| |]; try reflexivity; contradiction.
  - intros p Hp. rewrite onSignatureHelp_cases. unfold cursor_line in Hp.
    destruct (documents w (uri p)) as [text|]; [|reflexivity].
    destruct (at_ (split text LF) (line (position p))) as [currentLine|];
      [|contradiction].
    cbv zeta. destruct (_ =? -1); [reflexivity|].
    match goal with |- context [callHuggingFaceAPI ?pr ?n w] =>
      specialize (Hc pr n); destruct (callHuggingFaceAPI pr n w) as [[v|e|] sent] end;
      [destruct v| |]; try reflexivity; contradiction.
  - intros p Hp. rewrite onHover_cases.
    destruct (documents w (uri p)) as [text|]; [|reflexivity].
    cbv zeta.
    destruct (Z.geb_spec (line (position p)) (len (split text LF))) as [|Hlt];
      [reflexivity|].
    destruct (at_in_range (split text LF) (line (position p))) as [l ->]; [lia|].
    destruct (_ >=? _); [reflexivity|].
    destruct (getWordRangeAtPosition l (character (position p))) as [r|]; [|reflexivity].
    destruct (_ || _); [reflexivity|].
    match goal with |- context [callHuggingFaceAPI ?pr ?n w] =>
      specialize (Hc pr n); destruct (callHuggingFaceAPI pr n w) as [[v|e|] sent] end;
      [destruct v| |]; try reflexivity; contradiction.
Qed.

Lemma unusable_reply_gives_empty_results_witness :
  let w := sample_world sample_key
             (Responds [120] 200
                (Parsed (VObject [(GENERATED_TEXT, VBool true)]))) in
  fst (callHuggingFaceAPI (lit "prompt") 100 w) = Returned (VBool true)
  /\ fst (onCompletion (at_position 0 5) w) = Returned []
  /\ fst (onCompletionResolve sample_item w) = Returned sample_item
  /\ fst (onSignatureHelp (at_position 1 8) w) = Returned None
  /\ fst (onHover (at_position 0 2) w) = Returned None.
Proof.
  cbv zeta. split; [reflexivity|].
  destruct (unusable_reply_gives_empty_results
              (sample_world sample_key
                 (Responds [120] 200 (Parsed (VObject [(GENERATED_TEXT, VBool true)])))))
    as (Hc & Hr & Hs & Hh); [intros prompt n; reflexivity|].
  split; [apply Hc|]. split; [apply Hr|].
  split; [apply Hs; vm_compute; discriminate|].
  apply Hh. cbn. lia.
Defined.

(** ** The context window of completion *)

Lemma at_nonneg {A} (s : list A) (i : Z) :
  0 <= i -> at_ s i = nth_error s (Z.to_nat i).
Proof.
  intros H. unfold at_. destruct (Z.ltb_spec i 0); [lia|reflexivity].
Qed.

Lemma slice_nth {A} (a : list A) (s e : Z) (k : nat) :
  0 <= s -> 0 <= e ->
  nth_error (slice a s e) k
  = if s + Z.of_nat k <? e then at_ a (s + Z.of_nat k) else None.
Proof.
  intros Hs He. unfold slice, rel_index.
  destruct (Z.ltb_spec s 0); [lia|]. destruct (Z.ltb_spec e 0); [lia|].
  rewrite nth_error_firstn, nth_error_skipn.
  destruct (Z.ltb_spec (s + Z.of_nat k) e) as [Hlt|Hge].
  - destruct (Nat.ltb_spec k (Z.to_nat (Z.min e (len a) - Z.min s (len a)))) as [Hk|Hk].
    + unfold at_. destruct (Z.ltb_spec (s + Z.of_nat k) 0); [lia|].
      f_equal. lia.
    + symmetry. apply at_out_of_range. right. lia.
  - destruct (Nat.ltb_spec k (Z.to_nat (Z.min e (len a) - Z.min s (len a))));
      [lia|reflexivity].
Qed.

Lemma slice_length {A} (a : list A) (s e : Z) :
  0 <= s <= e -> len (slice a s e) = Z.min e (len a) - Z.min s (len a).
Proof.
  intros H. unfold slice, rel_index, len.
  destruct (Z.ltb_spec s 0); [lia|]. destruct (Z.ltb_spec e 0); [lia|].
  rewrite length_firstn, length_skipn. lia.
Qed.

Lemma join_cons (x : jsstring) (r : list jsstring) (sep : jsstring) :
  r <> [] -> join (x :: r) sep = x ++ sep ++ join r sep.
Proof. destruct r; [congruence|reflexivity]. Qed.

Lemma join_split (s : jsstring) (sep : code_unit) :
  join (split s sep) [sep] = s.
Proof.
  induction s as [|c t IH]; [reflexivity|].
  cbn [split]. destruct (N.eqb_spec c sep) as [->|Hne].
  - destruct (split_cons t sep) as (f & r & E).
    rewrite join_cons by (rewrite E; discriminate).
    rewrite IH. reflexivity.
  - destruct (split t sep) as [|h r] eqn:E.
    + destruct (split_cons t sep) as (f & r & E'). congruence.
    + destruct r as [|h' r'].
      * cbn [join] in IH |- *. rewrite IH. reflexivity.
      * rewrite join_cons in IH |- * by discriminate.
        rewrite <- IH. reflexivity.
Qed.

Lemma join_app (a b : list jsstring) (sep : jsstring) :
  exists glue, join (a ++ b) sep = join a sep ++ glue ++ join b sep.
Proof.
  induction a as [|x a IH].
  - exists []. reflexivity.
  - destruct IH as [glue IH].
    destruct a as [|y a'].
    + destruct b as [|z b'].
      * exists []. cbn. rewrite !app_nil_r. reflexivity.
      * exists sep. reflexivity.
    + exists glue. cbn [app] in IH |- *.
      rewrite (join_cons x (y :: a' ++ b)) by discriminate.
      rewrite (join_cons x (y :: a')) by discriminate.
      rewrite IH. repeat rewrite <- app_assoc. reflexivity.
Qed.

Lemma slice_splits {A} (a : list A) (s e : Z) :
  0 <= s <= e -> exists before after, a = before ++ slice a s e ++ after.
Proof.
  intros H. unfold slice, rel_index.
  destruct (Z.ltb_spec s 0); [lia|]. destruct (Z.ltb_spec e 0); [lia|].
  exists (firstn (Z.to_nat (Z.min s (len a))) a).
  exists (skipn (Z.to_nat (Z.min e (len a) - Z.min s (len a)))
            (skipn (Z.to_nat (Z.min s (len a))) a)).
  rewrite firstn_skipn, firstn_skipn. reflexivity.
Qed.

(** X7. The context that completion sends is a window of the document: at
    most six lines, each a line of the document at or before the cursor
    line, in order and without gaps, starting five lines above the cursor
    (or at the first line); its text occurs in the document as it is.
    When the cursor line exists the window ends with it. *)
Theorem completion_context_window (w : world) (p : TextDocumentPositionParams)
    (text : jsstring) :
  documents w (uri p) = Some text ->
  0 <= line (position p) ->
  let lines := split text LF in
  let first := Z.max 0 (line (position p) - 5) in
  exists contextLines,
    snd (onCompletion p w)
    = wire w (completion_prompt (join contextLines [LF])
                (at_ lines (line (position p)))) 150
    /\ len contextLines <= 6
    /\ (forall k, nth_error contextLines k
                  = if first + Z.of_nat k <=? line (position p)
                    then at_ lines (first + Z.of_nat k) else None)
    /\ (line (position p) < len lines ->
        len contextLines = Z.min (line (position p) + 1) 6
        /\ at_ contextLines (len contextLines - 1) = at_ lines (line (position p)))
    /\ (exists before after, text = before ++ join contextLines [LF] ++ after).
Proof.
  intros Hdoc Hline lines first.
  exists (slice lines first (line (position p) + 1)).
  split; [rewrite onCompletion_sent; unfold completion_request; rewrite Hdoc;
          reflexivity|].
  assert (Hlen : len (slice lines first (line (position p) + 1))
                 = Z.min (line (position p) + 1) (len lines) - Z.min first (len lines))
    by (apply slice_length; unfold first; lia).
  assert (Hnth : forall k, nth_error (slice lines first (line (position p) + 1)) k
                 = if first + Z.of_nat k <=? line (position p)
                   then at_ lines (first + Z.of_nat k) else None).
  { intros k. rewrite slice_nth by (unfold first; lia).
    destruct (Z.ltb_spec (first + Z.of_nat k) (line (position p) + 1));
      destruct (Z.leb_spec (first + Z.of_nat k) (line (position p)));
      try reflexivity; lia. }
  split; [unfold first in *; lia|]. split; [exact Hnth|]. split.
  - intros Hin. split; [unfold first in *; lia|].
    rewrite (at_nonneg (slice lines first (line (position p) + 1)))
      by (unfold first in *; lia).
    rewrite Hnth.
    replace (first + Z.of_nat (Z.to_nat (len (slice lines first (line (position p) + 1)) - 1)))
      with (line (position p)) by (unfold first in *; lia).
    rewrite Z.leb_refl. reflexivity.
  - destruct (slice_splits lines first (line (position p) + 1)) as (b & a & E);
      [unfold first; lia|].
    remember (slice lines first (line (position p) + 1)) as window eqn:Ew.
    destruct (join_app b (window ++ a) [LF]) as [g1 E1].
    destruct (join_app window a [LF]) as [g2 E2].
    exists (join b [LF] ++ g1), (g2 ++ join a [LF]).
    assert (Htext : text = join (b ++ window ++ a) [LF])
      by (rewrite <- E; symmetry; apply join_split).
    rewrite Htext, E1, E2.
    repeat rewrite <- app_assoc. reflexivity.
Qed.

Lemma completion_context_window_witness :
  let w := sample_world sample_key (Responds [120] 200 (body_with_text (lit "x = 1"))) in
  0 <= 1
  /\ exists contextLines,
       snd (onCompletion (at_position 1 8) w)
       = wire w (completion_prompt (join contextLines [LF]) (Some (lit "foo(a, b"))) 150
       /\ len contextLines = 2.
Proof.
  cbv zeta. split; [lia|].
  destruct (completion_context_window
              (sample_world sample_key (Responds [120] 200 (body_with_text (lit "x = 1"))))
              (at_position 1 8) sample_text eq_refl)
    as (contextLines & Hreq & _ & _ & Hlast & _); [cbn; lia|].
  exists contextLines. split; [exact Hreq|].
  destruct Hlast as [Hl _]; [vm_compute; reflexivity|exact Hl].
Defined.

(** ** The function name of signature help *)

Lemma firstn_snoc {A} : forall (l : list A) (n : nat) (x : A),
  nth_error l n = Some x -> firstn (S n) l = firstn n l ++ [x].
Proof.
  induction l as [|y l IH]; intros n x H; [destruct n; discriminate|].
  destruct n as [|n]; cbn in *.
  - injection H as <-. reflexivity.
  - f_equal. apply IH. exact H.
Qed.

Lemma substring_snoc (s : jsstring) (a i : Z) (c : code_unit) :
  0 <= a <= i -> at_ s i = Some c ->
  substring s a (i + 1) = substring s a i ++ [c].
Proof.
  intros Ha Hc. pose proof (at_Some_bounds _ _ _ Hc) as Hb.
  rewrite !substring_in_range by lia.
  replace (Z.to_nat (i + 1 - a)) with (S (Z.to_nat (i - a))) by lia.
  apply firstn_snoc. rewrite nth_error_skipn.
  rewrite at_nonneg in Hc by lia.
  replace (Z.to_nat a + Z.to_nat (i - a))%nat with (Z.to_nat i) by lia.
  exact Hc.
Qed.

Lemma substring_empty (s : jsstring) (a : Z) : substring s a a = [].
Proof.
  unfold substring. rewrite Z.min_id, Z.max_id, Z.sub_diag. reflexivity.
Qed.

Lemma test_name_in_range (line : jsstring) (i : Z) :
  0 <= i < len line -> test_name line i = name_at line i.
Proof.
  intros H. unfold test_name, name_at.
  destruct (at_in_range line i H) as [c ->]. reflexivity.
Qed.

Lemma while_name_spec (currentLine : jsstring) :
  forall (fuel : nat) (i : Z) (functionName : jsstring),
  Z.of_nat fuel = i + 1 -> i < len currentLine ->
  exists s,
    0 <= s <= i + 1
    /\ while_name fuel currentLine i functionName
       = substring currentLine s (i + 1) ++ functionName
    /\ (forall j, s <= j <= i -> name_at currentLine j = true)
    /\ name_at currentLine (s - 1) = false.
Proof.
  induction fuel as [|f IH]; intros i functionName Hf Hi.
  - exists 0. cbn [while_name]. replace (i + 1) with 0 by lia.
    rewrite substring_empty.
    split; [lia|]. split; [reflexivity|]. split; [intros; lia|].
    unfold name_at. rewrite at_out_of_range by lia. reflexivity.
  - cbn [while_name]. destruct (Z.geb_spec i 0) as [H0|]; [|lia]. cbn [andb].
    rewrite test_name_in_range by lia.
    destruct (name_at currentLine i) eqn:En.
    + destruct (at_in_range currentLine i) as [c Hc]; [lia|].
      rewrite Hc. cbn [option_map interpolate].
      destruct (IH (i - 1) ([c] ++ functionName)) as (s & Hs & Hw & Hall & Hmax);
        [lia|lia|].
      exists s. replace (i - 1 + 1) with i in * by lia.
      split; [lia|]. split.
      * rewrite Hw, (substring_snoc currentLine s i c) by (assumption || lia).
        rewrite <- app_assoc. reflexivity.
      * split; [|exact Hmax]. intros j Hj.
        destruct (Z.eq_dec j i) as [->|]; [exact En|]. apply Hall. lia.
    + exists (i + 1). rewrite substring_empty.
      split; [lia|]. split; [reflexivity|]. split; [intros; lia|].
      replace (i + 1 - 1) with i by lia. exact En.
Qed.

Lemma substring_0_at (s : jsstring) (b j : Z) :
  at_ (substring s 0 b) j = if j <? b then at_ s j else None.
Proof.
  unfold substring, clamp.
  replace (Z.min (Z.max 0 0) (len s)) with 0 by (unfold len; lia).
  set (b' := Z.min (Z.max b 0) (len s)).
  replace (Z.min 0 b') with 0 by (unfold b', len; lia).
  replace (Z.max 0 b') with b' by (unfold b', len; lia).
  cbn [Z.to_nat skipn]. unfold at_.
  destruct (Z.ltb_spec j 0); [destruct (j <? b); reflexivity|].
  rewrite nth_error_firstn.
  destruct (Nat.ltb_spec (Z.to_nat j) (Z.to_nat (b' - 0))) as [Hlt|Hge];
    destruct (Z.ltb_spec j b); try reflexivity.
  - unfold b' in Hlt. lia.
  - symmetry. apply nth_error_None. unfold b', len in *. lia.
Qed.

Lemma lastIndexOf_spec (text : jsstring) (i : Z) :
  lastIndexOf text LPAREN = i -> i <> -1 ->
  0 <= i < len text
  /\ at_ text i = Some LPAREN
  /\ (forall j, i < j -> at_ text j <> Some LPAREN).
Proof.
  unfold lastIndexOf. rewrite lastIndexOf_aux_last_open.
  destruct (last_open text) as [[k r]|] eqn:El; [|congruence].
  intros <- _. destruct (last_open_spec _ _ _ El) as (pre & Et & Hl & Hn).
  assert (Hlen : len text = Z.of_nat k + 1 + len r).
  { rewrite Et. unfold len. rewrite length_app. cbn [List.length]. lia. }
  split; [unfold len in *; lia|]. split.
  - rewrite at_nonneg by lia. rewrite Et.
    replace (Z.to_nat (0 + Z.of_nat k)) with (List.length pre + 0)%nat by lia.
    rewrite nth_error_app2 by lia.
    replace (List.length pre + 0 - List.length pre)%nat with 0%nat by lia.
    reflexivity.
  - intros j Hj Hat. apply Hn.
    rewrite at_nonneg in Hat by lia. rewrite Et in Hat.
    rewrite nth_error_app2 in Hat by lia.
    destruct (Z.to_nat j - List.length pre)%nat as [|m] eqn:Em; [lia|].
    cbn [nth_error] in Hat. eapply nth_error_In. exact Hat.
Qed.

(** X8. When signature help asks the service, the open parenthesis it
    starts from is the last one before the cursor on the cursor line, and
    the function name in its prompt is the text just left of that
    parenthesis, as far as letters, digits, underscores and dots reach and
    no further; the name is empty when no such character stands there. *)
Theorem signature_request_names_the_call (w : world) (p : TextDocumentPositionParams)
    (currentLine : jsstring) (functionCallStart : Z) :
  cursor_line w p = Some currentLine ->
  lastIndexOf (substring currentLine 0 (character (position p))) LPAREN
    = functionCallStart ->
  functionCallStart <> -1 ->
  0 <= functionCallStart < character (position p)
  /\ at_ currentLine functionCallStart = Some LPAREN
  /\ (forall j, functionCallStart < j < character (position p) ->
        at_ currentLine j <> Some LPAREN)
  /\ exists s,
       0 <= s <= functionCallStart
       /\ snd (onSignatureHelp p w)
          = wire w (signature_prompt (substring currentLine s functionCallStart)) 100
       /\ (forall j, s <= j < functionCallStart -> name_at currentLine j = true)
       /\ name_at currentLine (s - 1) = false.
Proof.
  intros Hline Hidx Hne.
  destruct (lastIndexOf_spec _ _ Hidx Hne) as (Hb & Hat & Hlast).
  rewrite substring_0_at in Hat.
  destruct (Z.ltb_spec functionCallStart (character (position p))) as [Hlt|];
    [|discriminate].
  split; [lia|]. split; [exact Hat|]. split.
  - intros j Hj Hj'. apply (Hlast j); [lia|].
    rewrite substring_0_at. destruct (Z.ltb_spec j (character (position p))); [|lia].
    exact Hj'.
  - pose proof (at_Some_bounds _ _ _ Hat) as Hcl.
    destruct (while_name_spec currentLine (Z.to_nat functionCallStart)
                (functionCallStart - 1) [])
      as (s & Hs & Hw & Hall & Hmax); [lia|lia|].
    replace (functionCallStart - 1 + 1) with functionCallStart in * by lia.
    exists s. split; [lia|]. split.
    + rewrite onSignatureHelp_sent.
      unfold signature_request. rewrite Hline. cbv zeta. rewrite Hidx.
      destruct (Z.eqb_spec functionCallStart (-1)); [contradiction|].
      rewrite Hw, app_nil_r. reflexivity.
    + split; [|exact Hmax]. intros j Hj. apply Hall. lia.
Qed.

Lemma signature_request_names_the_call_witness :
  let w := sample_world sample_key (Responds [120] 200 (body_with_text (lit "foo(a, b)"))) in
  cursor_line w (at_position 1 8) = Some (lit "foo(a, b")
  /\ lastIndexOf (substring (lit "foo(a, b") 0 8) LPAREN = 3
  /\ exists s,
       0 <= s <= 3
       /\ snd (onSignatureHelp (at_position 1 8) w)
          = wire w (signature_prompt (substring (lit "foo(a, b") s 3)) 100.
Proof.
  cbv zeta. split; [reflexivity|]. split; [reflexivity|].
  destruct (signature_request_names_the_call
              (sample_world sample_key
                 (Responds [120] 200 (body_with_text (lit "foo(a, b)"))))
              (at_position 1 8) (lit "foo(a, b") 3)
    as (_ & _ & _ & s & Hs & Hreq & _); [reflexivity|reflexivity|discriminate|].
  exists s. split; [exact Hs|exact Hreq].
Defined.

(** ** The parameters of a signature *)

Lemma push_parameters_numbered : forall (params : list jsstring) (k : nat)
    (acc : list ParameterInformation),
  push_parameters params k acc = acc ++ numbered_parameters params k.
Proof.
  induction params as [|x r IH]; intros k acc; cbn [push_parameters numbered_parameters].
  - rewrite app_nil_r. reflexivity.
  - rewrite IH, <- app_assoc. reflexivity.
Qed.

Lemma length_numbered_parameters : forall (params : list jsstring) (k : nat),
  List.length (numbered_parameters params k) = List.length params.
Proof.
  induction params as [|x r IH]; intros k; cbn; [reflexivity|].
  rewrite IH. reflexivity.
Qed.

Lemma split_length (s : jsstring) (sep : code_unit) :
  List.length (split s sep) = S (count_occ N.eq_dec s sep).
Proof.
  induction s as [|c t IH]; [reflexivity|].
  cbn [split]. destruct (N.eqb_spec c sep) as [->|Hne].
  - rewrite count_occ_cons_eq by reflexivity. cbn [List.length]. rewrite IH.
    reflexivity.
  - rewrite count_occ_cons_neq by exact Hne.
    destruct (split t sep) as [|h r]; [discriminate IH|exact IH].
Qed.

Lemma split_no_sep (s : jsstring) (sep : code_unit) :
  Forall (fun piece => ~ In sep piece) (split s sep).
Proof.
  induction s as [|c t IH]; [constructor; [intros []|constructor]|].
  cbn [split]. destruct (N.eqb_spec c sep) as [->|Hne].
  - constructor; [intros []|exact IH].
  - destruct (split t sep) as [|h r]; [constructor; [|constructor]|].
    + intros [E|[]]. congruence.
    + inversion IH as [|? ? Hh Hr]; subst. constructor; [|exact Hr].
      intros [E|Hin]; [congruence|contradiction].
Qed.

Lemma lazy_group_sound : forall (t g : jsstring),
  lazy_group t = Some g ->
  (exists post, t = g ++ RPAREN :: post)
  /\ ~ In RPAREN g
  /\ (forall c, In c g -> is_line_terminator c = false).
Proof.
  induction t as [|c t IH]; intros g; [discriminate|].
  cbn [lazy_group]. destruct (N.eqb_spec c RPAREN) as [->|Hne].
  - intros H. injection H as <-. split; [exists t; reflexivity|].
    split; [intros []|intros c []].
  - destruct (is_line_terminator c) eqn:Elt; [discriminate|].
    destruct (lazy_group t) as [g'|]; [|discriminate].
    intros H. injection H as <-.
    destruct (IH g' eq_refl) as ((post & ->) & Hn & Hlt).
    split; [exists post; reflexivity|]. split.
    + intros [E|Hin]; [congruence|contradiction].
    + intros c' [<-|Hin]; [exact Elt|apply Hlt; exact Hin].
Qed.

Lemma lazy_group_none : forall (t : jsstring),
  lazy_group t = None ->
  forall g post, t = g ++ RPAREN :: post ->
  exists c, In c g /\ is_line_terminator c = true.
Proof.
  induction t as [|c t IH]; intros Hn g post E.
  - destruct g; discriminate.
  - cbn [lazy_group] in Hn. destruct (N.eqb_spec c RPAREN) as [->|Hne];
      [discriminate|].
    destruct g as [|x g']; cbn [app] in E; injection E as -> E; [congruence|].
    destruct (is_line_terminator x) eqn:Elt.
    + exists x. split; [left; reflexivity|exact Elt].
    + destruct (lazy_group t) as [g0|] eqn:El; [discriminate|].
      destruct (IH eq_refl g' post E) as (c' & Hin & Hc').
      exists c'. split; [right; exact Hin|exact Hc'].
Qed.

Lemma match_paren_group_sound : forall (s g : jsstring),
  match_paren_group s = Some g ->
  (exists pre post, s = pre ++ LPAREN :: g ++ RPAREN :: post)
  /\ ~ In RPAREN g
  /\ (forall c, In c g -> is_line_terminator c = false).
Proof.
  induction s as [|c t IH]; intros g; [discriminate|].
  cbn [match_paren_group].
  assert (Hrec : match_paren_group t = Some g ->
                 (exists pre post, c :: t = pre ++ LPAREN :: g ++ RPAREN :: post)
                 /\ ~ In RPAREN g
                 /\ (forall c, In c g -> is_line_terminator c = false)).
  { intros H. destruct (IH g H) as ((pre & post & ->) & Hn & Hlt).
    split; [exists (c :: pre), post; reflexivity|]. split; assumption. }
  destruct (N.eqb_spec c LPAREN) as [->|Hne]; [|exact Hrec].
  destruct (lazy_group t) as [g'|] eqn:El; [|exact Hrec].
  intros H. injection H as <-.
  destruct (lazy_group_sound t g' El) as ((post & ->) & Hn & Hlt).
  split; [exists [], post; reflexivity|]. split; assumption.
Qed.

Lemma match_paren_group_none : forall (s : jsstring),
  match_paren_group s = None ->
  forall pre g post, s = pre ++ LPAREN :: g ++ RPAREN :: post ->
  exists c, In c g /\ is_line_terminator c = true.
Proof.
  induction s as [|c t IH]; intros Hn pre g post E.
  - destruct pre; discriminate.
  - cbn [match_paren_group] in Hn.
    destruct pre as [|x pre']; cbn [app] in E; injection E as -> E.
    + rewrite N.eqb_refl in Hn.
      destruct (lazy_group t) as [g'|] eqn:El; [discriminate|].
      apply (lazy_group_none t El g post E).
    + apply (IH) with (pre := pre') (post := post); [|exact E].
      destruct (N.eqb x LPAREN); [|exact Hn].
      destruct (lazy_group t); [discriminate|exact Hn].
Qed.

Lemma lazy_group_complete : forall (g post : jsstring),
  ~ In RPAREN g -> (forall c, In c g -> is_line_terminator c = false) ->
  lazy_group (g ++ RPAREN :: post) = Some g.
Proof.
  induction g as [|c g IH]; intros post Hn Hlt.
  - cbn [app lazy_group]. rewrite N.eqb_refl. reflexivity.
  - cbn [app lazy_group].
    destruct (N.eqb_spec c RPAREN) as [->|Hne]; [exfalso; apply Hn; left; reflexivity|].
    rewrite (Hlt c) by (left; reflexivity).
    rewrite IH; [reflexivity| |].
    + intros Hin. apply Hn. right. exact Hin.
    + intros c' Hin. apply Hlt. right. exact Hin.
Qed.

Lemma lazy_group_none_iff (t : jsstring) :
  lazy_group t = None <-> no_pair_at t.
Proof.
  split; [intros H g post; apply (lazy_group_none t H)|].
  intros Hno. destruct (lazy_group t) as [g|] eqn:El; [|reflexivity].
  destruct (lazy_group_sound t g El) as ((post & E) & _ & Hlt).
  destruct (Hno g post E) as (c & Hin & Hc).
  rewrite (Hlt c Hin) in Hc. discriminate.
Qed.

Lemma match_paren_group_first : forall (s g : jsstring),
  match_paren_group s = Some g -> exists pre post, first_pair s pre g post.
Proof.
  induction s as [|c t IH]; intros g; [discriminate|].
  cbn [match_paren_group].
  destruct (N.eqb_spec c LPAREN) as [->|Hne].
  - destruct (lazy_group t) as [g'|] eqn:El.
    + intros H. injection H as <-.
      destruct (lazy_group_sound t g' El) as ((post & ->) & Hn & Hlt).
      exists [], post. split; [reflexivity|]. split; [exact Hn|].
      split; [exact Hlt|]. intros [|x pre1] pre2 E; discriminate E.
    + intros H. destruct (IH g H) as (pre & post & Et & Hn & Hlt & Hfirst).
      exists (LPAREN :: pre), post. split; [rewrite Et; reflexivity|].
      split; [exact Hn|]. split; [exact Hlt|].
      intros [|x pre1] pre2 E; cbn [app] in E.
      * injection E as E. subst pre2. rewrite <- Et.
        apply lazy_group_none_iff. exact El.
      * injection E as _ E. apply (Hfirst pre1 pre2 E).
  - intros H. destruct (IH g H) as (pre & post & Et & Hn & Hlt & Hfirst).
    exists (c :: pre), post. split; [rewrite Et; reflexivity|].
    split; [exact Hn|]. split; [exact Hlt|].
    intros [|x pre1] pre2 E; cbn [app] in E.
    + injection E as Ec _. congruence.
    + injection E as _ E. apply (Hfirst pre1 pre2 E).
Qed.

Lemma first_pair_match : forall (pre s g post : jsstring),
  first_pair s pre g post -> match_paren_group s = Some g.
Proof.
  induction pre as [|x pre IH]; intros s g post (Es & Hn & Hlt & Hfirst).
  - subst s. cbn [app match_paren_group]. rewrite N.eqb_refl.
    rewrite lazy_group_complete by assumption. reflexivity.
  - subst s. cbn [app match_paren_group].
    assert (Hrec : match_paren_group (pre ++ LPAREN :: g ++ RPAREN :: post) = Some g).
    { apply (IH _ g post). split; [reflexivity|]. split; [exact Hn|].
      split; [exact Hlt|]. intros pre1 pre2 E.
      apply (Hfirst (x :: pre1) pre2). rewrite E. reflexivity. }
    destruct (N.eqb_spec x LPAREN) as [->|Hne]; [|exact Hrec].
    rewrite (proj2 (lazy_group_none_iff _) (Hfirst [] pre eq_refl)).
    exact Hrec.
Qed.

Lemma no_pair_match (s : jsstring) :
  no_pair s <-> match_paren_group s = None.
Proof.
  split.
  - intros Hno. destruct (match_paren_group s) as [g|] eqn:Em; [|reflexivity].
    destruct (match_paren_group_sound s g Em) as ((pre & post & E) & _ & Hlt).
    destruct (Hno pre _ E g post eq_refl) as (c & Hin & Hc).
    rewrite (Hlt c Hin) in Hc. discriminate.
  - intros Hnone pre t E g post Et.
    apply (match_paren_group_none s Hnone pre g post). rewrite E, Et. reflexivity.
Qed.

(** X9. The signature answer made from a reply has one signature, the
    trimmed reply, active signature 0, and an active parameter that comes
    from the cursor line alone.  Its parameters are read from the first
    pair of parentheses of the reply that no line break separates, the
    leftmost opening parenthesis that has a closing one on its line and
    the first closing parenthesis after it: none when there is no such
    pair or nothing between it, else one per comma-separated piece of the
    text between, trimmed, the k-th documented as "Parameter k+1". *)
Theorem parse_signature_parameters (signatureText currentLine : jsstring)
    (character : Z) :
  let help := parse_signature signatureText currentLine character in
  exists si,
    signatures help = [si]
    /\ activeSignature help = 0
    /\ activeParameter help = getCurrentParameterIndex currentLine character
    /\ sig_label si = trim signatureText
    /\ ((exists pre g post, first_pair (trim signatureText) pre g post)
        \/ no_pair (trim signatureText))
    /\ (forall pre g post, first_pair (trim signatureText) pre g post ->
          (g = [] -> parameters si = [])
          /\ (g <> [] ->
              join (split g COMMA) [COMMA] = g
              /\ Forall (fun piece => ~ In COMMA piece) (split g COMMA)
              /\ List.length (parameters si) = S (count_occ N.eq_dec g COMMA)
              /\ parameters si = numbered_parameters (split g COMMA) 0))
    /\ (no_pair (trim signatureText) -> parameters si = []).
Proof.
  cbv zeta. unfold parse_signature. eexists.
  split; [reflexivity|]. split; [reflexivity|]. split; [reflexivity|].
  split; [reflexivity|]. cbn [parameters]. split; [|split].
  - destruct (match_paren_group (trim signatureText)) as [g|] eqn:Em.
    + left. destruct (match_paren_group_first _ _ Em) as (pre & post & H).
      exists pre, g, post. exact H.
    + right. apply no_pair_match. exact Em.
  - intros pre g post Hfirst. rewrite (first_pair_match _ _ _ _ Hfirst). split.
    + intros ->. reflexivity.
    + intros Hne. destruct g as [|c g']; [congruence|].
      rewrite push_parameters_numbered. cbn [app].
      split; [apply join_split|]. split; [apply split_no_sep|].
      split; [|reflexivity].
      rewrite length_numbered_parameters. apply split_length.
  - intros Hnone. apply no_pair_match in Hnone. rewrite Hnone. reflexivity.
Qed.

Lemma parse_signature_parameters_witness :
  first_pair (trim (lit " range(start, stop, step) "))
    (lit "range") (lit "start, stop, step") []
  /\ exists si,
       signatures (parse_signature (lit " range(start, stop, step) ") (lit "range(1, ") 9)
         = [si]
       /\ List.length (parameters si) = 3%nat.
Proof.
  assert (Hfirst : first_pair (trim (lit " range(start, stop, step) "))
                     (lit "range") (lit "start, stop, step") []).
  { split; [vm_compute; reflexivity|]. split; [|split].
    - intros H. vm_compute in H.
      repeat (destruct H as [H|H]; [discriminate H|]). exact H.
    - intros c H. vm_compute in H.
      repeat (destruct H as [<-|H]; [reflexivity|]). destruct H.
    - intros pre1 pre2 E. exfalso.
      assert (Hin : In LPAREN (lit "range")) by (rewrite E; apply in_elt).
      vm_compute in Hin.
      repeat (destruct Hin as [Hin|Hin]; [discriminate Hin|]). exact Hin. }
  split; [exact Hfirst|].
  destruct (parse_signature_parameters (lit " range(start, stop, step) ")
              (lit "range(1, ") 9)
    as (si & Hsig & _ & _ & _ & _ & Hsome & _).
  exists si. split; [exact Hsig|].
  destruct (Hsome _ _ _ Hfirst) as (_ & Hne).
  destruct Hne as (_ & _ & Hlen & _); [discriminate|].
  rewrite Hlen. reflexivity.
Defined.

(** ** The candidates of completion *)

Lemma lex_lt_trans : forall (a b c : jsstring),
  lex_lt a b = true -> lex_lt b c = true -> lex_lt a c = true.
Proof.
  induction a as [|x a IH]; intros b c Hab Hbc.
  - destruct b as [|y b]; [discriminate|]. destruct c; [discriminate|reflexivity].
  - destruct b as [|y b]; [discriminate|]. destruct c as [|z c]; [discriminate|].
    cbn [lex_lt] in *.
    apply orb_true_iff in Hab. apply orb_true_iff in Hbc. apply orb_true_iff.
    rewrite !andb_true_iff, !N.ltb_lt, !N.eqb_eq in *.
    destruct Hab as [Hxy|[-> Hab]]; destruct Hbc as [Hyz|[-> Hbc]].
    + left. lia.
    + left. exact Hxy.
    + left. exact Hyz.
    + right. split; [reflexivity|]. apply (IH b c); assumption.
Qed.

Lemma keys_increase_spec : forall (n : nat) (u : Decimal.uint),
  keys_increase n u = true ->
  forall k, (k < n)%nat ->
  lex_lt (key_of (Nat.to_little_uint k u)) (key_of (Nat.to_little_uint (S k) u)) = true.
Proof.
  induction n as [|n IH]; intros u H k Hk; [lia|].
  cbn [keys_increase] in H. apply andb_true_iff in H. destruct H as [Hu Hn].
  destruct k as [|k].
  - exact Hu.
  - change (Nat.to_little_uint (S k) u)
      with (Nat.to_little_uint k (Decimal.Little.succ u)).
    change (Nat.to_little_uint (S (S k)) u)
      with (Nat.to_little_uint (S k) (Decimal.Little.succ u)).
    apply (IH _ Hn). lia.
Qed.

Lemma sort_key_step (k : nat) :
  Z.of_nat (S k) < 100000 -> lex_lt (sort_key k) (sort_key (S k)) = true.
Proof.
  intros Hk.
  assert (H : keys_increase (Z.to_nat 99999) Decimal.zero = true)
    by (vm_compute; reflexivity).
  apply (keys_increase_spec _ _ H k). lia.
Qed.

Lemma sort_key_monotone : forall (j i : nat),
  (i < j)%nat -> Z.of_nat j < 100000 -> lex_lt (sort_key i) (sort_key j) = true.
Proof.
  induction j as [|j IH]; intros i Hij Hj; [lia|].
  destruct (Nat.eq_dec i j) as [->|Hne].
  - apply sort_key_step. exact Hj.
  - apply (lex_lt_trans _ (sort_key j)).
    + apply IH; lia.
    + apply sort_key_step. exact Hj.
Qed.

(** From the hundred-thousandth candidate on the keys no longer sort in
    rank order: "100000" comes before "99999". *)
Lemma sort_keys_wrap :
  sort_key (Z.to_nat 100000) = lit "100000"
  /\ lex_lt (sort_key (Z.to_nat 100000)) (sort_key (Z.to_nat 99999)) = true.
Proof. split; vm_compute; reflexivity. Qed.

Lemma parse_completions_form (completionText : jsstring) :
  let segments := filter usable (split_numbering completionText) in
  parse_completions completionText = numbered segments 0
  \/ (segments = [] /\ trim completionText <> []
      /\ parse_completions completionText
         = [text_item (trim completionText) (sort_key 0)]).
Proof.
  cbv zeta. unfold parse_completions.
  destruct (filter usable (split_numbering completionText)) as [|s r] eqn:Ef.
  - destruct (trim completionText) as [|c t] eqn:Et.
    + left. reflexivity.
    + right. repeat split. discriminate.
  - left. unfold len at 1. cbn [List.length].
    destruct (Z.eqb_spec (Z.of_nat (S (List.length r))) 0) as [|_]; [lia|].
    cbn [andb]. rewrite <- Ef.
    rewrite push_suggestions_numbered by apply forallb_filter_id. reflexivity.
Qed.

Lemma nth_error_numbered_inv (segments : list jsstring) (k0 k : nat)
    (a : CompletionItem) :
  nth_error (numbered segments k0) k = Some a ->
  exists s, nth_error segments k = Some s
            /\ a = text_item (trim s) (sort_key (k0 + k)).
Proof.
  intros H. destruct (nth_error segments k) as [s|] eqn:Es.
  - rewrite (nth_error_numbered segments k0 k s Es) in H.
    injection H as <-. exists s. split; reflexivity.
  - apply nth_error_None in Es.
    assert (Hn : nth_error (numbered segments k0) k = None)
      by (apply nth_error_None; rewrite length_numbered; exact Es).
    congruence.
Qed.

(** X10. The sort keys of the candidates of one reply grow with the rank,
    in the order of strings by code units: a lexical sort of the keys
    leaves the candidates in the order the reply listed them (for ranks
    below 100000). *)
Theorem candidates_sort_in_rank_order (completionText : jsstring) (i j : nat)
    (a b : CompletionItem) :
  (i < j)%nat -> Z.of_nat j < 100000 ->
  nth_error (parse_completions completionText) i = Some a ->
  nth_error (parse_completions completionText) j = Some b ->
  exists ka kb,
    sortText a = Some ka /\ sortText b = Some kb /\ lex_lt ka kb = true.
Proof.
  intros Hij Hj Ha Hb.
  destruct (parse_completions_form completionText) as [E|(_ & _ & E)];
    rewrite E in Ha, Hb.
  - destruct (nth_error_numbered_inv _ _ _ _ Ha) as (sa & _ & ->).
    destruct (nth_error_numbered_inv _ _ _ _ Hb) as (sb & _ & ->).
    eexists. eexists. split; [reflexivity|]. split; [reflexivity|].
    apply sort_key_monotone; [lia|exact Hj].
  - destruct j as [|[|j]]; [lia|discriminate|discriminate].
Qed.

Lemma candidates_sort_in_rank_order_witness :
  let text := lit "1. x = 1
2. y = 2" in
  exists a b ka kb,
    nth_error (parse_completions text) 0 = Some a
    /\ nth_error (parse_completions text) 1 = Some b
    /\ sortText a = Some ka /\ sortText b = Some kb /\ lex_lt ka kb = true.
Proof.
  cbv zeta. eexists. eexists.
  destruct (candidates_sort_in_rank_order (lit "1. x = 1
2. y = 2") 0 1 (text_item (lit "x = 1") (lit "00000"))
              (text_item (lit "y = 2") (lit "00001")))
    as (ka & kb & Ha & Hb & Hlt); [lia|lia|reflexivity|reflexivity|].
  exists ka, kb. split; [reflexivity|]. split; [reflexivity|].
  split; [exact Ha|]. split; [exact Hb|exact Hlt].
Defined.

Lemma trimStart_head (s : jsstring) (c : code_unit) (t : jsstring) :
  trimStart s = c :: t -> is_space c = false.
Proof.
  induction s as [|x s IH]; [discriminate|].
  cbn [trimStart]. destruct (is_space x) eqn:Ex; [exact IH|].
  intros H. injection H as <- _. exact Ex.
Qed.

Lemma trimStart_snoc (l : jsstring) (c : code_unit) :
  is_space c = false -> trimStart (l ++ [c]) = trimStart l ++ [c].
Proof.
  intros Hc. induction l as [|x l IH]; cbn [app trimStart].
  - rewrite Hc. reflexivity.
  - destruct (is_space x); [exact IH|reflexivity].
Qed.

Lemma trimStart_idem (s : jsstring) : trimStart (trimStart s) = trimStart s.
Proof.
  induction s as [|x s IH]; [reflexivity|].
  cbn [trimStart]. destruct (is_space x) eqn:Ex; [exact IH|].
  cbn [trimStart]. rewrite Ex. reflexivity.
Qed.

Lemma trim_idem (s : jsstring) : trim (trim s) = trim s.
Proof.
  unfold trim. destruct (trimStart s) as [|c t] eqn:Es; [reflexivity|].
  pose proof (trimStart_head _ _ _ Es) as Hc.
  unfold trimEnd. cbn [rev]. rewrite trimStart_snoc by exact Hc.
  rewrite rev_app_distr. cbn [rev app trimStart]. rewrite Hc.
  cbn [rev]. rewrite rev_involutive.
  rewrite trimStart_snoc by exact Hc. rewrite trimStart_idem.
  rewrite rev_app_distr. reflexivity.
Qed.

Lemma in_numbered : forall (segments : list jsstring) (k : nat) (item : CompletionItem),
  In item (numbered segments k) ->
  exists s k', In s segments /\ item = text_item (trim s) (sort_key k').
Proof.
  induction segments as [|x r IH]; intros k item; [intros []|].
  cbn [numbered]. intros [<-|Hin].
  - exists x, k. split; [left; reflexivity|reflexivity].
  - destruct (IH _ _ Hin) as (s & k' & Hs & E).
    exists s, k'. split; [right; exact Hs|exact E].
Qed.

Lemma filter_length {A} (f : A -> bool) (l : list A) :
  (List.length (filter f l) <= List.length l)%nat.
Proof.
  induction l as [|x l IH]; [apply le_n|].
  cbn [filter]. destruct (f x); cbn [List.length]; lia.
Qed.

(** X11. Every candidate of completion is plain text whose label is not
    empty, has no white space at either end, and is also the text to
    insert; detail and documentation are left for resolve.  There are
    never more candidates than pieces of the reply. *)
Theorem candidates_are_clean (completionText : jsstring) :
  (List.length (parse_completions completionText)
   <= List.length (split_numbering completionText))%nat
  /\ forall item, In item (parse_completions completionText) ->
       label item <> []
       /\ trim (label item) = label item
       /\ insertText item = Some (label item)
       /\ kind item = Some Text
       /\ detail item = None /\ documentation item = None
       /\ exists k, sortText item = Some (sort_key k).
Proof.
  destruct (split_numbering_spec completionText) as (seps & Hl & _).
  destruct (parse_completions_form completionText) as [E|(_ & Ht & E)]; rewrite E.
  - split; [rewrite length_numbered; apply filter_length|].
    intros item Hin. destruct (in_numbered _ _ _ Hin) as (s & k & Hs & ->).
    apply filter_In in Hs. destruct Hs as [_ Hu]. apply usable_trim in Hu.
    cbn. split; [exact Hu|]. split; [apply trim_idem|].
    repeat split. exists k. reflexivity.
  - split; [rewrite Hl; cbn; lia|].
    intros item [<-|[]]. cbn. split; [exact Ht|]. split; [apply trim_idem|].
    repeat split. exists 0%nat. reflexivity.
Qed.

Lemma candidates_are_clean_witness :
  In (text_item (lit "y = 2") (lit "00001")) (parse_completions (lit "1. x = 1
2. y = 2"))
  /\ trim (lit "y = 2") = lit "y = 2".
Proof.
  assert (Hin : In (text_item (lit "y = 2") (lit "00001"))
                  (parse_completions (lit "1. x = 1
2. y = 2"))) by (right; left; reflexivity).
  split; [exact Hin|].
  destruct (candidates_are_clean (lit "1. x = 1
2. y = 2")) as [_ H].
  destruct (H _ Hin) as (_ & Htrim & _). exact Htrim.
Defined.

(** ** Hover *)

(** X12. Hover asks the service exactly when the cursor is on a letter,
    digit, underscore or dot of an existing line; the word in its prompt
    is then the whole run of such characters around the cursor, and the
    prompt carries the whole line as context. *)
Theorem hover_asks_for_the_word (w : world) (p : TextDocumentPositionParams) :
  (cursor_line w p = None -> snd (onHover p w) = [])
  /\ forall l, cursor_line w p = Some l ->
       (ident_at l (character (position p)) = false -> snd (onHover p w) = [])
       /\ (ident_at l (character (position p)) = true ->
           exists r,
             snd (onHover p w)
             = wire w (hover_prompt (substring l (start r) (end_ r)) l) 100
             /\ 0 <= start r <= character (position p)
             /\ character (position p) < end_ r <= len l
             /\ (forall i, start r <= i < end_ r -> ident_at l i = true)
             /\ ident_at l (start r - 1) = false
             /\ ident_at l (end_ r) = false).
Proof.
  rewrite onHover_sent. unfold hover_request. split; [intros ->; reflexivity|].
  intros l ->. destruct (word_range_spec l (character (position p))) as [Hnone Hsome].
  split.
  - intros H. rewrite (Hnone H). reflexivity.
  - intros H. destruct (Hsome H) as (r & Hr & Hrest).
    exists r. rewrite Hr. split; [reflexivity|exact Hrest].
Qed.

Lemma hover_asks_for_the_word_witness :
  let w := sample_world sample_key (Responds [120] 200 (body_with_text (lit "x = 1"))) in
  cursor_line w (at_position 0 2) = Some (lit "print(x)")
  /\ ident_at (lit "print(x)") 2 = true
  /\ exists r, snd (onHover (at_position 0 2) w)
               = wire w (hover_prompt (substring (lit "print(x)") (start r) (end_ r))
                           (lit "print(x)")) 100.
Proof.
  cbv zeta. split; [reflexivity|]. split; [reflexivity|].
  destruct (hover_asks_for_the_word
              (sample_world sample_key (Responds [120] 200 (body_with_text (lit "x = 1"))))
              (at_position 0 2)) as [_ H].
  destruct (H (lit "print(x)") eq_refl) as [_ Hsome].
  destruct (Hsome eq_refl) as (r & Hreq & _).
  exists r. exact Hreq.
Defined.

(** X13. When the inference call of a hover request completes with text
    that is not blank, the hover is that text, trimmed, as markdown. *)
Theorem hover_shows_the_reply (w : world) (p : TextDocumentPositionParams)
    (l : jsstring) (r : range) (reply : jsstring) (sent : list request) :
  cursor_line w p = Some l ->
  getWordRangeAtPosition l (character (position p)) = Some r ->
  callHuggingFaceAPI (hover_prompt (substring l (start r) (end_ r)) l) 100 w
    = (Returned (VString reply), sent) ->
  trim reply <> [] ->
  onHover p w =
  (Returned (Some {| contents_kind := lit "markdown";
                     contents_value := trim reply |}),
   sent).
Proof.
  intros Hline Hr Hcall Hreply.
  rewrite onHover_cases. unfold cursor_line in Hline.
  destruct (documents w (uri p)) as [text|]; [|discriminate].
  cbv zeta. pose proof (at_Some_bounds _ _ _ Hline) as Hb.
  destruct (Z.geb_spec (line (position p)) (len (split text LF))); [lia|].
  rewrite Hline.
  destruct (word_not_blank l r _ Hr) as (Hc & Htrim & Hne).
  destruct (Z.geb_spec (character (position p)) (len l)); [lia|].
  rewrite Hr, Htrim.
  destruct (substring l (start r) (end_ r)) as [|c t] eqn:Ew; [congruence|].
  cbn [orb]. unfold len at 1. cbn [List.length Z.eqb Z.of_nat].
  rewrite Hcall. unfold or_else.
  destruct (trim reply); [congruence|reflexivity].
Qed.

Lemma hover_shows_the_reply_witness :
  let w := sample_world sample_key
             (Responds [120] 200 (body_with_text (lit " Writes to stdout. "))) in
  trim (lit " Writes to stdout. ") <> []
  /\ exists sent,
       onHover (at_position 0 2) w =
       (Returned (Some {| contents_kind := lit "markdown";
                          contents_value := lit "Writes to stdout." |}),
        sent).
Proof.
  cbv zeta. split; [vm_compute; discriminate|].
  eexists.
  apply (hover_shows_the_reply
           (sample_world sample_key
              (Responds [120] 200 (body_with_text (lit " Writes to stdout. "))))
           (at_position 0 2) (lit "print(x)") {| start := 0; end_ := 5 |}
           (lit " Writes to stdout. ")).
  - reflexivity.
  - reflexivity.
  - reflexivity.
  - vm_compute. discriminate.
Defined.

(** ** The two text-position helpers *)

Lemma commas_to_close_bounds (s : jsstring) :
  0 <= commas_to_close s <= Z.of_nat (count_occ N.eq_dec s COMMA).
Proof.
  induction s as [|c t IH]; [cbn; lia|].
  cbn [commas_to_close]. destruct (N.eqb_spec c RPAREN) as [->|_].
  - lia.
  - destruct (N.eqb_spec c COMMA) as [->|Hne].
    + rewrite count_occ_cons_eq by reflexivity. unfold code_unit in *. lia.
    + rewrite count_occ_cons_neq by exact Hne. unfold code_unit in *. lia.
Qed.

(** X14. The parameter index is the number of commas between the last
    open parenthesis before the cursor and the first closing parenthesis
    after it, or the cursor; it is 0 when no open parenthesis lies before
    the cursor, never negative, and never more than the number of commas
    before the cursor.  What follows the cursor plays no part. *)
Theorem getCurrentParameterIndex_closed_form (line : jsstring) (position : Z) :
  let text := substring line 0 position in
  getCurrentParameterIndex line position
  = match last_open text with
    | Some (_, inside) => commas_to_close inside
    | None => 0
    end
  /\ 0 <= getCurrentParameterIndex line position
       <= Z.of_nat (count_occ N.eq_dec text COMMA)
  /\ (~ In LPAREN text -> getCurrentParameterIndex line position = 0)
  /\ (forall k inside, last_open text = Some (k, inside) ->
        exists pre, text = pre ++ LPAREN :: inside
                    /\ List.length pre = k /\ ~ In LPAREN inside)
  /\ (forall line', substring line' 0 position = text ->
        getCurrentParameterIndex line' position
        = getCurrentParameterIndex line position).
Proof.
  cbv zeta. rewrite getCurrentParameterIndex_to_first_close.
  split; [reflexivity|]. split; [|split; [|split]].
  - destruct (last_open (substring line 0 position)) as [[k inside]|] eqn:El.
    + destruct (last_open_spec _ _ _ El) as (pre & Et & _ & _).
      pose proof (commas_to_close_bounds inside) as Hb.
      rewrite Et, count_occ_app.
      destruct (N.eq_dec LPAREN COMMA) as [E|_]; [discriminate E|].
      rewrite count_occ_cons_neq by discriminate.
      unfold jsstring, code_unit in *. lia.
    + lia.
  - intros Hno. destruct (last_open (substring line 0 position)) as [[k inside]|] eqn:El;
      [|reflexivity].
    destruct (last_open_spec _ _ _ El) as (pre & Et & _ & _).
    exfalso. apply Hno. rewrite Et. apply in_or_app. right. left. reflexivity.
  - intros k inside El. apply last_open_spec. exact El.
  - intros line' E. rewrite getCurrentParameterIndex_to_first_close, E. reflexivity.
Qed.

Lemma getCurrentParameterIndex_closed_form_witness :
  ~ In LPAREN (substring (lit "x = 1, 2") 0 8)
  /\ getCurrentParameterIndex (lit "x = 1, 2") 8 = 0.
Proof.
  assert (Hno : ~ In LPAREN (substring (lit "x = 1, 2") 0 8)).
  { vm_compute. intros H.
    repeat (destruct H as [H|H]; [discriminate H|]). exact H. }
  split; [exact Hno|].
  destruct (getCurrentParameterIndex_closed_form (lit "x = 1, 2") 8)
    as (_ & _ & H & _).
  apply H. exact Hno.
Defined.

(** X15. The word range does not depend on where in the word the cursor
    is: every position inside the range found at one position gives the
    same range. *)
Theorem word_range_is_shared (line : jsstring) (position q : Z) (r : range) :
  getWordRangeAtPosition line position = Some r ->
  start r <= q < end_ r ->
  getWordRangeAtPosition line q = Some r.
Proof.
  intros Hr Hq.
  destruct (word_range_spec line position) as [Hnone Hsome].
  destruct (ident_at line position) eqn:Eid;
    [|rewrite Hnone in Hr by reflexivity; discriminate].
  destruct (Hsome eq_refl) as (r0 & Hr0 & Hs & He & Hall & Hlo & Hhi).
  rewrite Hr in Hr0. injection Hr0 as <-.
  destruct (word_range_spec line q) as [_ Hsome'].
  destruct (Hsome' (Hall q Hq)) as (r' & Hr' & Hs' & He' & Hall' & Hlo' & Hhi').
  rewrite Hr'. f_equal.
  assert (Es : start r' = start r).
  { destruct (Z.lt_trichotomy (start r') (start r)) as [Hlt|[E|Hgt]]; [|exact E|].
    - rewrite (Hall' (start r - 1)) in Hlo by lia. discriminate.
    - rewrite (Hall (start r' - 1)) in Hlo' by lia. discriminate. }
  assert (Ee : end_ r' = end_ r).
  { destruct (Z.lt_trichotomy (end_ r') (end_ r)) as [Hlt|[E|Hgt]]; [|exact E|].
    - rewrite (Hall (end_ r')) in Hhi' by lia. discriminate.
    - rewrite (Hall' (end_ r)) in Hhi by lia. discriminate. }
  destruct r as [s e], r' as [s' e']. cbn in Es, Ee. subst. reflexivity.
Qed.

Lemma word_range_is_shared_witness :
  getWordRangeAtPosition (lit "x = os.path.join(a)") 6 = Some {| start := 4; end_ := 16 |}
  /\ getWordRangeAtPosition (lit "x = os.path.join(a)") 15 = Some {| start := 4; end_ := 16 |}.
Proof.
  split; [reflexivity|].
  apply (word_range_is_shared (lit "x = os.path.join(a)") 6 15 {| start := 4; end_ := 16 |}).
  - reflexivity.
  - cbn. lia.
Defined.

(** ** The prompts *)

Lemma trimStart_app (a x : jsstring) :
  trimStart a <> [] -> trimStart (a ++ x) = trimStart a ++ x.
Proof.
  induction a as [|c a IH]; intros H.
  - exfalso. apply H. reflexivity.
  - cbn [app trimStart] in *. destruct (is_space c); [apply IH; exact H|reflexivity].
Qed.

Lemma trimEnd_app (x b : jsstring) :
  trimEnd b <> [] -> trimEnd (x ++ b) = x ++ trimEnd b.
Proof.
  unfold trimEnd. intros H. rewrite rev_app_distr.
  rewrite trimStart_app.
  - rewrite rev_app_distr, rev_involutive. reflexivity.
  - intros E. apply H. rewrite E. reflexivity.
Qed.

Lemma trim_around (a m b : jsstring) :
  trimStart a <> [] -> trimEnd b <> [] ->
  trim (a ++ m ++ b) = trimStart a ++ m ++ trimEnd b.
Proof.
  intros Ha Hb. unfold trim. rewrite trimStart_app by exact Ha.
  rewrite app_assoc, trimEnd_app by exact Hb.
  rewrite <- app_assoc. reflexivity.
Qed.

Lemma trim_template5 (a x b y c : jsstring) :
  trimStart a <> [] -> trimEnd c <> [] ->
  trim (a ++ x ++ b ++ y ++ c) = trimStart a ++ x ++ b ++ y ++ trimEnd c.
Proof.
  intros Ha Hc.
  replace (a ++ x ++ b ++ y ++ c) with (a ++ (x ++ b ++ y) ++ c)
    by (rewrite <- !app_assoc; reflexivity).
  rewrite trim_around by assumption. rewrite <- !app_assoc. reflexivity.
Qed.

Lemma trim_template9 (a q1 x q2 b q3 y q4 c : jsstring) :
  trimStart a <> [] -> trimEnd c <> [] ->
  trim (a ++ q1 ++ x ++ q2 ++ b ++ q3 ++ y ++ q4 ++ c)
  = trimStart a ++ q1 ++ x ++ q2 ++ b ++ q3 ++ y ++ q4 ++ trimEnd c.
Proof.
  intros Ha Hc.
  replace (a ++ q1 ++ x ++ q2 ++ b ++ q3 ++ y ++ q4 ++ c)
    with (a ++ (q1 ++ x ++ q2 ++ b ++ q3 ++ y ++ q4) ++ c)
    by (rewrite <- !app_assoc; reflexivity).
  rewrite trim_around by assumption. rewrite <- !app_assoc. reflexivity.
Qed.

(** X16. Each prompt is fixed text around the request's own text, which
    it carries as it is, unescaped and uncut: the context and the current
    line for completion, the label in quotes for resolve, the function
    name in quotes for signature help, the word and the line in quotes for
    hover.  Trimming the template never reaches that text. *)
Theorem prompts_carry_their_inputs :
  (exists head mid tail, forall context currentLine,
      completion_prompt context currentLine
      = head ++ context ++ mid ++ interpolate currentLine ++ tail)
  /\ (exists head tail, forall label,
        resolve_prompt label = head ++ [QUOTE] ++ label ++ [QUOTE] ++ tail)
  /\ (exists head tail, forall functionName,
        signature_prompt functionName
        = head ++ [QUOTE] ++ functionName ++ [QUOTE] ++ tail)
  /\ (exists head mid tail, forall word line,
        hover_prompt word line
        = head ++ [QUOTE] ++ word ++ [QUOTE] ++ mid
          ++ [QUOTE] ++ line ++ [QUOTE] ++ tail).
Proof.
  split; [|split; [|split]].
  - eexists. eexists. eexists. intros context currentLine.
    unfold completion_prompt.
    rewrite trim_template5 by (vm_compute; discriminate). reflexivity.
  - eexists. eexists. intros label. unfold resolve_prompt.
    rewrite trim_template5 by (vm_compute; discriminate). reflexivity.
  - eexists. eexists. intros functionName. unfold signature_prompt.
    rewrite trim_template5 by (vm_compute; discriminate). reflexivity.
  - eexists. eexists. eexists. intros word line. unfold hover_prompt.
    rewrite trim_template9 by (vm_compute; discriminate). reflexivity.
Qed.

(** ** The value the client hands on *)

(** X17. What the client fulfils its promise with is the empty string or
    a value that counts as true: never [null], [undefined], [false] or 0,
    whatever the response holds. *)
Theorem client_value_is_text_or_truthy (w : world) (prompt : jsstring)
    (maxTokens : Z) (v : value) :
  fst (callHuggingFaceAPI prompt maxTokens w) = Returned v ->
  v = VString [] \/ truthy v = true.
Proof.
  unfold callHuggingFaceAPI.
  destruct (HUGGINGFACE_API_KEY w) as [[|c k]|]; cbn [fst]; try discriminate.
  destruct (network w _) as [e|gaps statusCode data|gaps e|gaps|];
    cbn [fst settle]; try discriminate;
    destruct (timer_fires gaps); try discriminate.
  intros H. injection H as <-.
  destruct (Z.eqb_spec statusCode 200) as [->|Hne].
  - destruct data as [|parsedData]; [left; reflexivity|].
    rewrite on_end_exposed.
    destruct (exposed parsedData) as [g|]; [|left; reflexivity].
    destruct (truthy g) eqn:Eg; [right; exact Eg|left; reflexivity].
  - left. unfold on_end.
    destruct (Z.eqb_spec statusCode 200); [contradiction|reflexivity].
Qed.

Lemma client_value_is_text_or_truthy_witness :
  let w := sample_world sample_key
             (Responds [120] 200 (Parsed (VObject [(GENERATED_TEXT, VNull)]))) in
  fst (callHuggingFaceAPI (lit "prompt") 100 w) = Returned (VString []).
Proof.
  cbv zeta.
  destruct (client_value_is_text_or_truthy
              (sample_world sample_key
                 (Responds [120] 200 (Parsed (VObject [(GENERATED_TEXT, VNull)]))))
              (lit "prompt") 100 (VString []) eq_refl) as [_|H].
  - reflexivity.
  - discriminate H.
Defined.
